(** * omni-grab: progress tracking and streaming delivery

    A shallow embedding of [src/app.py] (the Flask layer: the routes
    [analyze] and [download] with the filename sanitising, the
    background download worker, the progress notifier and the cleanup
    route) and of [src/downloader.py] (the [MediaEngine] wrapper:
    [analyze_url], [get_available_formats], the format selection, the
    progress hook, [download_media] and the generator
    [stream_download]), followed by the properties the specification
    states about them and by further properties of the code.

    Conventions.
    - A Python [str] is the list of its code points ([pystr]); [lit]
      turns an ASCII literal of the source into one.
    - Code that may raise runs in the state-and-exception monad [M].
    - The process-wide dict [download_progress] is a [gmap] from task id
      to Progress Record.
    - What lives outside the repository (yt-dlp, the file system, the
      Unicode tables, Python's arithmetic on numbers) enters as an
      explicit oracle or interface. *)

From Stdlib Require Import ZArith NArith String Ascii Floats DecimalString.
From Stdlib Require Import DecimalN DecimalPos.
From Stdlib.Init Require Import Byte.
From stdpp Require Import gmap list sorting.

Local Open Scope nat_scope.

(* ===================================================================== *)
(** * Python strings *)
(* ===================================================================== *)

(** A [str] is a sequence of Unicode code points. *)
Abbreviation pystr := (list N).

Definition lit (s : string) : pystr := map N_of_ascii (list_ascii_of_string s).

(** [s.startswith(p)] *)
Fixpoint startswith (p s : pystr) : bool :=
  match p, s with
  | [], _ => true
  | _ :: _, [] => false
  | a :: p', b :: s' => (a =? b)%N && startswith p' s'
  end.

(** [s.replace(old, new)] for a non-empty [old]: leftmost, non-overlapping
    occurrences.  [skip] counts the characters of a matched occurrence
    that are still to be dropped. *)
Fixpoint replace_go (old new : pystr) (skip : nat) (s : pystr) : pystr :=
  match s with
  | [] => []
  | c :: s' =>
      match skip with
      | S k => replace_go old new k s'
      | O => if startswith old s
             then new ++ replace_go old new (length old - 1) s'
             else c :: replace_go old new 0 s'
      end
  end.

Definition str_replace (old new s : pystr) : pystr := replace_go old new 0 s.

(** [os.path.basename(p)]: what follows the last ['/'] (code point 47). *)
Fixpoint basename_go (acc s : pystr) : pystr :=
  match s with
  | [] => acc
  | c :: s' => if (c =? 47)%N then basename_go [] s' else basename_go (acc ++ [c]) s'
  end.

Definition basename (p : pystr) : pystr := basename_go [] p.

(* ===================================================================== *)
(** * Exceptions and the state-and-exception monad *)
(* ===================================================================== *)

(** The instances of Python's [Exception] that the modelled code can
    meet.  [exn_str] is [str(e)]. *)
Inductive exn_class :=
  | KeyError | TypeError | ZeroDivisionError | OSError
  | DownloadError | OtherException.

Record exn := Exn { exn_class_of : exn_class; exn_str : pystr }.

#[global] Instance exn_class_eq_dec : EqDecision exn_class.
Proof. solve_decision. Defined.

#[global] Instance exn_eq_dec : EqDecision exn.
Proof. solve_decision. Defined.

(** A computation over a state [St] that returns an [A] or raises. *)
Definition M (St A : Type) : Type := St -> St * (exn + A).

Definition ret {St A} (a : A) : M St A := fun s => (s, inr a).

Definition raise {St A} (e : exn) : M St A := fun s => (s, inl e).

Definition bind {St A B} (m : M St A) (k : A -> M St B) : M St B :=
  fun s => match m s with
           | (s', inr a) => k a s'
           | (s', inl e) => (s', inl e)
           end.

(** [try: m  except Exception as e: h e] *)
Definition try_except {St A} (m : M St A) (h : exn -> M St A) : M St A :=
  fun s => match m s with
           | (s', inr a) => (s', inr a)
           | (s', inl e) => h e s'
           end.

(** A pure step that may raise. *)
Definition lift {St A} (r : exn + A) : M St A := fun s => (s, r).

Definition modify {St} (f : St -> St) : M St unit := fun s => (f s, inr tt).

(** stdpp's monad notations: [x ← m; k] and [m;; k]. *)
#[global] Instance M_ret {St} : MRet (M St) := fun A => @ret St A.
#[global] Instance M_bind {St} : MBind (M St) := fun A B k m => @bind St A B m k.

(* ===================================================================== *)
(** * Python numbers *)
(* ===================================================================== *)

(** The arithmetic the source performs on byte counts and percentages is
    Python's own ([int] and [float] with [bool()], [>], [/], [*],
    [round(x, 1)] and [str()]).  It is taken through this interface;
    [DoubleNum] below instantiates it with binary64 numbers. *)
Class PyNum := {
  num : Type;
  num_eq_dec :: EqDecision num;
  num_of_Z : Z -> num;               (* an integer literal *)
  num_bool : num -> bool;            (* [bool(x)], that is [x != 0] *)
  num_gt0 : num -> bool;             (* [x > 0] *)
  num_div : num -> num -> num;       (* [x / y] for [y != 0] *)
  num_mul : num -> num -> num;       (* [x * y] *)
  num_round1 : num -> num;           (* [round(x, 1)] *)
  num_str : num -> pystr;            (* [str(x)], as an f-string prints it *)
  num_gt0_bool : forall x, num_gt0 x = true -> num_bool x = true;
  num_gt0_zero : num_gt0 (num_of_Z 0) = false
}.

Section Model.
Context `{PyNum}.

(** A value found in one of yt-dlp's progress dicts: [None] or a number. *)
Inductive pyval := PyNone | PyNumber (x : num).

(** [bool(v)] *)
Definition py_truthy (v : pyval) : bool :=
  match v with PyNone => false | PyNumber x => num_bool x end.

(** [a or b] *)
Definition py_or (a b : pyval) : pyval := if py_truthy a then a else b.

Definition type_error (msg : string) : exn := Exn TypeError (lit msg).

(** [v > 0] *)
Definition py_gt0 (v : pyval) : exn + bool :=
  match v with
  | PyNone => inl (type_error "'>' not supported between instances of 'NoneType' and 'int'")
  | PyNumber x => inr (num_gt0 x)
  end.

(** [a / b]: operands are type-checked first, then a zero divisor raises. *)
Definition py_truediv (a b : pyval) : exn + num :=
  match a, b with
  | PyNumber x, PyNumber y =>
      if num_bool y then inr (num_div x y)
      else inl (Exn ZeroDivisionError (lit "division by zero"))
  | _, _ => inl (type_error "unsupported operand type(s) for /")
  end.

(** [d.get(key)] and [d.get(key, 0)] on an optional entry. *)
Definition dict_get (entry : option pyval) : pyval := default PyNone entry.
Definition dict_get0 (entry : option pyval) : pyval :=
  default (PyNumber (num_of_Z 0)) entry.

(* ===================================================================== *)
(** * downloader.py: the progress hook *)
(* ===================================================================== *)

(** The dict [d] yt-dlp hands to a progress hook. *)
Record progress_dict := {
  d_status : pystr;
  d_total_bytes : option pyval;
  d_total_bytes_estimate : option pyval;
  d_downloaded_bytes : option pyval;
  d_speed : option pyval;
  d_eta : option pyval
}.

(** The dict the hook hands to the registered callback.  The four last
    keys exist only in a ['downloading'] event. *)
Record progress_info := {
  pi_status : pystr;
  pi_percentage : num;
  pi_downloaded : option pyval;
  pi_total : option pyval;
  pi_speed : option pyval;
  pi_eta : option pyval
}.

(** [total = d.get('total_bytes') or d.get('total_bytes_estimate', 0)] *)
Definition hook_total (d : progress_dict) : pyval :=
  py_or (dict_get (d_total_bytes d)) (dict_get0 (d_total_bytes_estimate d)).

(** [downloaded = d.get('downloaded_bytes', 0)] *)
Definition hook_downloaded (d : progress_dict) : pyval :=
  dict_get0 (d_downloaded_bytes d).

(** [MediaEngine._create_progress_hook(callback)], applied to [d]. *)
Definition hook {St} (callback : option (progress_info -> M St unit))
    (d : progress_dict) : M St unit :=
  match callback with
  | None => ret tt
  | Some cb =>
      if decide (d_status d = lit "downloading") then
        let total := hook_total d in
        let downloaded := hook_downloaded d in
        positive ← lift (py_gt0 total);
        if (positive : bool) then
          ratio ← lift (py_truediv downloaded total);
          let percentage := num_mul ratio (num_of_Z 100) in
          cb {| pi_status := lit "downloading";
                pi_percentage := percentage;
                pi_downloaded := Some downloaded;
                pi_total := Some total;
                pi_speed := Some (dict_get0 (d_speed d));
                pi_eta := Some (dict_get0 (d_eta d)) |}
        else ret tt
      else if decide (d_status d = lit "finished") then
        cb {| pi_status := lit "finished"; pi_percentage := num_of_Z 100;
              pi_downloaded := None; pi_total := None;
              pi_speed := None; pi_eta := None |}
      else if decide (d_status d = lit "error") then
        cb {| pi_status := lit "error"; pi_percentage := num_of_Z 0;
              pi_downloaded := None; pi_total := None;
              pi_speed := None; pi_eta := None |}
      else ret tt
  end.

(** A callback that only records what it is handed. *)
Definition record_event (ev : progress_info) : M (list progress_info) unit :=
  modify (fun log => log ++ [ev]).

(** The events [hook] forwards for [d], and how the hook itself ends. *)
Definition forwarded (d : progress_dict) : list progress_info :=
  fst (hook (Some record_event) d []).
Definition hook_result (d : progress_dict) : exn + unit :=
  snd (hook (Some record_event) d []).

(* ===================================================================== *)
(** * downloader.py: [download_media] *)
(* ===================================================================== *)

(** What [download_media] returns: the dict with ['success': True] and its
    ['filename'], ['path'], ['title'], or the one with ['success': False]
    and, when present, its ['error']. *)
Inductive dm_result :=
  | DMSuccess (filename path title : pystr)
  | DMFailure (error : option pystr).

(** What [ydl.extract_info(url, download=True)] ends with: [None], an info
    dict (of which the code uses [ydl.prepare_filename(info)] and
    [info.get('title')]), or an exception. *)
Inductive engine_outcome :=
  | InfoNone
  | Info (prepared_filename : pystr) (title : option pystr)
  | EngineRaises (e : exn).

(** One run of yt-dlp, as the caller can observe it: the dicts it hands
    to the progress hooks, in order, then its outcome. *)
Record engine_run := {
  run_events : list progress_dict;
  run_outcome : engine_outcome
}.

(** yt-dlp calls every registered hook on every event; an exception of a
    hook ends the run and leaves [extract_info]. *)
Fixpoint call_hooks {St} (hooks : list (progress_dict -> M St unit))
    (d : progress_dict) : M St unit :=
  match hooks with
  | [] => ret tt
  | h :: hooks' => h d;; call_hooks hooks' d
  end.

Fixpoint extract_events {St} (hooks : list (progress_dict -> M St unit))
    (events : list progress_dict) : M St unit :=
  match events with
  | [] => ret tt
  | d :: events' => call_hooks hooks d;; extract_events hooks events'
  end.

Definition extract_info {St} (run : engine_run)
    (hooks : list (progress_dict -> M St unit)) : M St engine_outcome :=
  extract_events hooks (run_events run);;
  match run_outcome run with
  | EngineRaises e => raise e
  | o => ret o
  end.

(** ['Sin título'] *)
Definition sin_titulo : pystr := lit "Sin t" ++ [237%N] ++ lit "tulo".

(** The name both fetch paths derive from [ydl.prepare_filename(info)]. *)
Definition actual_filename (format_choice prepared : pystr) : pystr :=
  if startswith (lit "audio_") format_choice
  then str_replace (lit ".m4a") (lit ".mp3")
         (str_replace (lit ".webm") (lit ".mp3") prepared)
  else prepared.

(** [MediaEngine.download_media(url, format_choice, progress_callback)].
    [engine url format_choice] is what yt-dlp does for these arguments
    (the options dict only configures it). *)
Definition download_media {St} (engine : pystr -> pystr -> engine_run)
    (download_path : pystr) (url format_choice : pystr)
    (progress_callback : option (progress_info -> M St unit)) : M St dm_result :=
  try_except
    (let progress_hooks :=
       match progress_callback with
       | Some _ => [hook progress_callback]
       | None => []
       end in
     info ← extract_info (engine url format_choice) progress_hooks;
     match info with
     | Info prepared title =>
         let filename := basename (actual_filename format_choice prepared) in
         ret (DMSuccess filename (download_path ++ lit "/" ++ filename)
                (default sin_titulo title))
     | _ => ret (DMFailure (Some (lit "No se pudo descargar el archivo")))
     end)
    (fun e =>
       if decide (exn_class_of e = DownloadError)
       then ret (DMFailure (Some (lit "Error de descarga: " ++ exn_str e)))
       else ret (DMFailure (Some (lit "Error inesperado: " ++ exn_str e)))).

(** The texts a failure of [download_media] starts with. *)
Definition failure_prefixes : list pystr :=
  [lit "No se pudo descargar el archivo"; lit "Error de descarga: ";
   lit "Error inesperado: "].

(* ===================================================================== *)
(** * app.py: the progress table and the download worker *)
(* ===================================================================== *)

(** A Progress Record: the dict stored under a task id.  The keys
    ['filename'] and ['download_url'] exist only in a completed record. *)
Record progress_record := {
  status : pystr;
  percentage : num;
  message : pystr;
  filename : option pystr;
  download_url : option pystr
}.

#[global] Instance progress_record_eq_dec : EqDecision progress_record.
Proof. solve_decision. Defined.

(** [download_progress]: task id to record.  Every access of the source
    holds [download_lock], so each of the operations below is atomic;
    a reader keeps a [.copy()] of the record, never the stored dict, so
    updating that dict in place is replacing the stored value. *)
Abbreviation store := (gmap pystr progress_record).

Definition connecting_record : progress_record :=
  {| status := lit "downloading"; percentage := num_of_Z 0;
     message := lit "Conectando..."; filename := None; download_url := None |}.

Definition downloading_record (p : num) : progress_record :=
  {| status := lit "downloading"; percentage := num_round1 p;
     message := lit "Descargando... " ++ num_str (num_round1 p) ++ lit "%";
     filename := None; download_url := None |}.

(** The record after [rec['status'] = 'processing'] and
    [rec['message'] = 'Procesando archivo...'] on the stored record. *)
Definition processing_of (r : progress_record) : progress_record :=
  {| status := lit "processing"; percentage := percentage r;
     message := lit "Procesando archivo..."; filename := filename r;
     download_url := download_url r |}.

Definition completed_record (name : pystr) : progress_record :=
  {| status := lit "completed"; percentage := num_of_Z 100;
     message := lit "Descarga completada"; filename := Some name;
     download_url := Some (lit "/downloads/" ++ name) |}.

Definition error_record (msg : pystr) : progress_record :=
  {| status := lit "error"; percentage := num_of_Z 0; message := msg;
     filename := None; download_url := None |}.

(** [repr(key)], the text of a [KeyError]. *)
Definition key_error (key : pystr) : exn :=
  Exn KeyError (lit "'" ++ key ++ lit "'").

(** The closure [progress_callback] of [download_worker]. *)
Definition progress_callback (task_id : pystr) (progress_info : progress_info)
    : M store unit :=
  if decide (pi_status progress_info = lit "downloading") then
    modify (fun download_progress : store =>
      <[task_id := downloading_record (pi_percentage progress_info)]> download_progress)
  else if decide (pi_status progress_info = lit "finished") then
    fun download_progress : store =>
      match download_progress !! task_id with
      | Some r => (<[task_id := processing_of r]> download_progress, inr tt)
      | None => (download_progress, inl (key_error task_id))
      end
  else ret tt.

(** The write that ends the [try] block of [download_worker]. *)
Definition result_record (result : dm_result) : progress_record :=
  match result with
  | DMSuccess name _ _ => completed_record name
  | DMFailure error => error_record (default (lit "Error desconocido") error)
  end.

(** [download_worker(task_id, url, format_choice)], over any adapter in
    the place of [media_engine.download_media]. *)
Definition download_worker_with
    (adapter : pystr -> pystr -> option (progress_info -> M store unit) -> M store dm_result)
    (task_id url format_choice : pystr) : M store unit :=
  try_except
    (modify (fun download_progress : store =>
       <[task_id := connecting_record]> download_progress);;
     result ← adapter url format_choice (Some (progress_callback task_id));
     modify (fun download_progress : store =>
       <[task_id := result_record result]> download_progress))
    (fun e =>
       modify (fun download_progress : store =>
         <[task_id := error_record (lit "Error: " ++ exn_str e)]> download_progress)).

(** The worker as the application runs it:
    [media_engine = MediaEngine(download_path='static/downloads')]. *)
Definition download_worker (engine : pystr -> pystr -> engine_run)
    (task_id url format_choice : pystr) : M store unit :=
  download_worker_with (download_media engine (lit "static/downloads"))
    task_id url format_choice.

(** [cleanup_task(task_id)]: [del download_progress[task_id]] when present. *)
Definition cleanup_task (task_id : pystr) : M store unit :=
  modify (fun download_progress : store => delete task_id download_progress).

(* ===================================================================== *)
(** * app.py: the progress notifier *)
(* ===================================================================== *)

Definition not_found_record : progress_record :=
  {| status := lit "not_found"; percentage := num_of_Z 0;
     message := lit "Tarea no encontrada"; filename := None; download_url := None |}.

(** The locked read at the head of the loop: a copy of the stored record,
    or the synthesized one. *)
Definition current_progress (task_id : pystr) (download_progress : store)
    : progress_record :=
  match download_progress !! task_id with
  | Some r => r
  | None => not_found_record
  end.

(** [current_progress['status'] in ['completed', 'error', 'not_found']] *)
Definition stops_stream (r : progress_record) : bool :=
  bool_decide (status r ∈ [lit "completed"; lit "error"; lit "not_found"]).

(** The generator [generate] of [get_progress].  [polls] holds the table
    as each successive iteration of [while True] finds it (one entry per
    iteration, 500 ms apart); the result is the events yielded, each the
    record that [json.dumps] renders, and whether the loop reached
    [break] within these polls. *)
Fixpoint generate (task_id : pystr) (last_status : option progress_record)
    (polls : list store) : list progress_record * bool :=
  match polls with
  | [] => ([], false)
  | download_progress :: later =>
      let current := current_progress task_id download_progress in
      let changed := bool_decide (Some current ≠ last_status) in
      let yielded := if changed then [current] else [] in
      let last_status' := if changed then Some current else last_status in
      if stops_stream current then (yielded, true)
      else let '(events, stopped) := generate task_id last_status' later in
           (yielded ++ events, stopped)
  end.

Definition get_progress (task_id : pystr) (polls : list store)
    : list progress_record * bool :=
  generate task_id None polls.

(** The same stream in the specification's words: the records read at
    the successive polls, up to and including the first that ends the
    stream, with a record dropped when it equals the one emitted last. *)
Fixpoint upto_stop (rs : list progress_record) : list progress_record :=
  match rs with
  | [] => []
  | r :: rs' => if stops_stream r then [r] else r :: upto_stop rs'
  end.

Fixpoint suppress_repeats (last : option progress_record)
    (rs : list progress_record) : list progress_record :=
  match rs with
  | [] => []
  | r :: rs' => if decide (Some r = last) then suppress_repeats last rs'
                else r :: suppress_repeats (Some r) rs'
  end.

Definition spec_events (task_id : pystr) (polls : list store)
    : list progress_record :=
  suppress_repeats None (upto_stop (map (current_progress task_id) polls)).

(** No event equals the one before it ([last] stands before the first). *)
Fixpoint no_repeat (last : option progress_record)
    (events : list progress_record) : Prop :=
  match events with
  | [] => True
  | r :: events' => last ≠ Some r ∧ no_repeat (Some r) events'
  end.

(* ===================================================================== *)
(** * The table under concurrent use *)
(* ===================================================================== *)

(** The threads of the application meet only in [download_progress], and
    only inside [with download_lock].  One step below is one such
    critical section.  A task id is an opaque unique token: it is given
    to one worker, once, so a worker may start only under an id that has
    none.  While its fetch runs, a worker's callback may be invoked with
    any event, and the fetch may end with any result or exception. *)
Inductive worker_phase := Fetching | Done.

#[global] Instance worker_phase_eq_dec : EqDecision worker_phase.
Proof. solve_decision. Defined.

Inductive label :=
  | Launch (task_id : pystr)                                (* the worker's first write *)
  | Callback (task_id : pystr) (info : progress_info)       (* [progress_callback] *)
  | Finish (task_id : pystr) (outcome : exn + dm_result)    (* the worker's last write *)
  | Read (task_id : pystr)                                  (* the locked read of [generate] *)
  | Cleanup (task_id : pystr).                              (* [cleanup_task] *)

Record system := {
  table : store;
  workers : gmap pystr worker_phase
}.

#[global] Instance system_eq_dec : EqDecision system.
Proof. solve_decision. Defined.

Definition initial_system : system := {| table := ∅; workers := ∅ |}.

(** The write by which [download_worker] ends, after a result of the
    adapter ([inr]) or in its [except] clause ([inl]). *)
Definition finish_write (task_id : pystr) (outcome : exn + dm_result)
    (download_progress : store) : store :=
  match outcome with
  | inr result => <[task_id := result_record result]> download_progress
  | inl e => <[task_id := error_record (lit "Error: " ++ exn_str e)]> download_progress
  end.

Definition sys_step (l : label) (sys : system) : option system :=
  match l with
  | Launch task_id =>
      match workers sys !! task_id with
      | None => Some {| table := <[task_id := connecting_record]> (table sys);
                        workers := <[task_id := Fetching]> (workers sys) |}
      | Some _ => None
      end
  | Callback task_id info =>
      match workers sys !! task_id with
      | Some Fetching =>
          Some {| table := fst (progress_callback task_id info (table sys));
                  workers := workers sys |}
      | _ => None
      end
  | Finish task_id outcome =>
      match workers sys !! task_id with
      | Some Fetching =>
          Some {| table := finish_write task_id outcome (table sys);
                  workers := <[task_id := Done]> (workers sys) |}
      | _ => None
      end
  | Read task_id => Some sys
  | Cleanup task_id =>
      Some {| table := fst (cleanup_task task_id (table sys));
              workers := workers sys |}
  end.

Fixpoint sys_run (ls : list label) (sys : system) : option system :=
  match ls with
  | [] => Some sys
  | l :: ls' => match sys_step l sys with
                | Some sys' => sys_run ls' sys'
                | None => None
                end
  end.

(** A record the worker will not write again. *)
Definition terminal (r : progress_record) : bool :=
  bool_decide (status r ∈ [lit "completed"; lit "error"]).

(** The systems a run passes through, the first one left out. *)
Fixpoint sys_trace (ls : list label) (sys : system) : list system :=
  match ls with
  | [] => []
  | l :: ls' => match sys_step l sys with
                | Some sys' => sys' :: sys_trace ls' sys'
                | None => []
                end
  end.

(** The table after the callbacks of a list of events, one step each. *)
Definition after_callbacks (task_id : pystr) (infos : list progress_info)
    (s : store) : store :=
  foldl (fun s info => (progress_callback task_id info s).1) s infos.

(** The statuses the code ever writes. *)
Definition stored_statuses : list pystr :=
  [lit "downloading"; lit "processing"; lit "completed"; lit "error"].

(** What every reachable state satisfies: a stored record has one of the
    four written statuses, and a terminal one belongs to a worker that
    has made its last write. *)
Definition sys_inv (sys : system) : Prop :=
  ∀ t r, table sys !! t = Some r ->
    status r ∈ stored_statuses
    ∧ (terminal r = true -> workers sys !! t = Some Done).

End Model.

Abbreviation store := (gmap pystr progress_record).

(* ===================================================================== *)
(** * app.py: the name of the streamed file *)
(* ===================================================================== *)

Section Sanitize.

(** [str.isalnum] beyond ASCII is a table of the Unicode character
    database. *)
Variable unicode_alnum : N -> bool.

(** [c.isalnum()] *)
Definition isalnum (c : N) : bool :=
  if (c <? 128)%N
  then ((48 <=? c) && (c <=? 57) || (65 <=? c) && (c <=? 90)
        || (97 <=? c) && (c <=? 122))%N
  else unicode_alnum c.

(** The characters [str.strip()] removes: Python's Unicode whitespace. *)
Definition isspace (c : N) : bool :=
  ((9 <=? c) && (c <=? 13) || (28 <=? c) && (c <=? 32)
   || (c =? 133) || (c =? 160) || (c =? 5760)
   || (8192 <=? c) && (c <=? 8202) || (c =? 8232) || (c =? 8233)
   || (c =? 8239) || (c =? 8287) || (c =? 12288))%N.

Fixpoint lstrip (s : pystr) : pystr :=
  match s with
  | c :: s' => if isspace c then lstrip s' else s
  | [] => []
  end.

Fixpoint rstrip (s : pystr) : pystr :=
  match s with
  | [] => []
  | c :: s' => match rstrip s' with
               | [] => if isspace c then [] else [c]
               | kept_tail => c :: kept_tail
               end
  end.

(** [s.strip()] *)
Definition strip (s : pystr) : pystr := rstrip (lstrip s).

(** [c.isalnum() or c in (' ', '-', '_')] *)
Definition kept (c : N) : bool :=
  isalnum c || (c =? 32)%N || (c =? 45)%N || (c =? 95)%N.

(** [safe_title], after both assignments. *)
Definition safe_title (title : pystr) : pystr :=
  take 100 (strip (filter (fun c => kept c = true) title)).

Definition extension (format_choice : pystr) : pystr :=
  if startswith (lit "audio_") format_choice then lit ".mp3" else lit ".mp4".

(** [filename] and [mimetype] of [download()]. *)
Definition download_filename (title format_choice : pystr) : pystr :=
  safe_title title ++ extension format_choice.

Definition download_mimetype (format_choice : pystr) : pystr :=
  if startswith (lit "audio_") format_choice then lit "audio/mpeg" else lit "video/mp4".

(** The specification's wording of the same name: keep the allowed
    characters, truncate to 100, append the extension. *)
Definition spec_filename (title format_choice : pystr) : pystr :=
  take 100 (filter (fun c => kept c = true) title) ++ extension format_choice.

End Sanitize.

(* ===================================================================== *)
(** * downloader.py: [stream_download] *)
(* ===================================================================== *)

(** ** The file system *)

Inductive node := File (data : list byte) | Dir.

(** The entries of the disk by path, in the order a directory scan
    meets them. *)
Abbreviation fs := (list (pystr * node)).

Definition fs_lookup (p : pystr) (disk : fs) : option node :=
  snd <$> find (fun entry => bool_decide (entry.1 = p)) disk.

(** [os.path.exists(p)] *)
Definition path_exists (p : pystr) (disk : fs) : bool :=
  bool_decide (is_Some (fs_lookup p disk)).

(** [p] lies below the directory [dir]. *)
Definition is_under (dir p : pystr) : bool := startswith (dir ++ lit "/") p.

(** [p] is an entry of [dir] itself. *)
Definition is_child (dir p : pystr) : bool :=
  is_under dir p
  && bool_decide (drop (length dir + 1) p ≠ [])
  && bool_decide (47%N ∉ drop (length dir + 1) p).

(** [list(Path(dir).glob('*'))] *)
Definition glob_star (dir : pystr) (disk : fs) : list pystr :=
  filter (fun p => is_child dir p = true) (map fst disk).

(** The disk after a [shutil.rmtree(dir)] that succeeds. *)
Definition rmtree (dir : pystr) (disk : fs) : fs :=
  filter (fun entry => entry.1 ≠ dir ∧ is_under dir entry.1 = false) disk.

(** The disk after a [shutil.rmtree(dir)] that fails: the entries below
    [dir] that it had [removed] by then are gone, [dir] itself is not. *)
Definition rmtree_partly (dir : pystr) (removed : pystr -> bool) (disk : fs) : fs :=
  filter (fun entry => ¬ (is_under dir entry.1 = true ∧ removed entry.1 = true)) disk.

(** [f.read(8192)] until [b'']: the chunks of a file. *)
Definition chunk_size : nat := N.to_nat 8192.

Fixpoint chunks_of (fuel : nat) (data : list byte) : list (list byte) :=
  match fuel, data with
  | S fuel', _ :: _ => take chunk_size data :: chunks_of fuel' (drop chunk_size data)
  | _, _ => []
  end.

Definition file_chunks (data : list byte) : list (list byte) :=
  chunks_of (length data) data.

(** ** What the generator does not control *)

Record stream_env := {
  (** the directory [tempfile.mkdtemp()] creates *)
  tmp_name : pystr;
  (** yt-dlp's fetch into that directory: the disk it leaves, and how
      [extract_info] ends *)
  fetch : pystr -> fs -> fs * engine_outcome;
  (** a failure of [open(filename, 'rb')] on an existing file *)
  open_fault : option exn;
  (** a failure of the [i]-th [f.read(8192)] *)
  read_fault : nat -> option exn;
  (** a failure of [shutil.rmtree(temp_dir)]: the exception, and what
      below the directory was removed before it *)
  rmtree_fault : option (exn * (pystr -> bool))
}.

(** How the generator ends: [StopIteration], [close()] by the consumer
    ([GeneratorExit] at the pending [yield]), or an exception. *)
Inductive stream_end := Exhausted | Closed | Faulted (e : exn).

Record stream_trace := {
  chunks : list (list byte);      (* what was yielded *)
  ending : stream_end;
  printed : list pystr;           (* the lines [print] wrote *)
  final_disk : fs
}.

(** The loop [while True: chunk = f.read(8192) ...  yield chunk].
    [patience] is the consumer: [None] iterates to the end, [Some n]
    calls [close()] after [n] further chunks beyond the next one. *)
Fixpoint stream_file (faults : nat -> option exn) (i : nat)
    (patience : option nat) (pending : list (list byte))
    : list (list byte) * stream_end :=
  match faults i with
  | Some e => ([], Faulted e)
  | None =>
      match pending with
      | [] => ([], Exhausted)
      | chunk :: rest =>
          match patience with
          | Some O => ([chunk], Closed)
          | _ =>
              let '(more, e) := stream_file faults (S i) (pred <$> patience) rest in
              (chunk :: more, e)
          end
      end
  end.

(** [open(filename, 'rb')] *)
Definition open_rb (env : stream_env) (filename : pystr) (disk : fs)
    : exn + list byte :=
  match open_fault env with
  | Some e => inl e
  | None =>
      match fs_lookup filename disk with
      | Some (File data) => inr data
      | Some Dir => inl (Exn OSError (lit "[Errno 21] Is a directory"))
      | None => inl (Exn OSError (lit "[Errno 2] No such file or directory"))
      end
  end.

(** The file the generator settles on after the fetch. *)
Definition chosen_file (temp_dir filename : pystr) (disk : fs) : pystr :=
  if path_exists filename disk then filename
  else match glob_star temp_dir disk with
       | first :: _ => first
       | [] => filename
       end.

(** The body of the [try] block from the fetch on. *)
Definition stream_body (env : stream_env) (format_choice : pystr)
    (patience : option nat) (disk : fs) : fs * (list (list byte) * stream_end) :=
  let temp_dir := tmp_name env in
  let '(disk', info) := fetch env temp_dir disk in
  (disk',
   match info with
   | EngineRaises e => ([], Faulted e)
   | InfoNone => ([], Faulted (Exn TypeError (lit "'NoneType' object is not subscriptable")))
   | Info prepared _ =>
       let filename :=
         chosen_file temp_dir (actual_filename format_choice prepared) disk' in
       if path_exists filename disk' then
         match open_rb env filename disk' with
         | inl e => ([], Faulted e)
         | inr data => stream_file (read_fault env) 0 patience (file_chunks data)
         end
       else ([], Exhausted)
   end).

(** [MediaEngine.stream_download(url, format_choice)], run from its first
    [next()] to its end against a consumer. *)
Definition stream_download (env : stream_env) (format_choice : pystr)
    (patience : option nat) (disk : fs) : stream_trace :=
  let temp_dir := tmp_name env in
  let disk1 := disk ++ [(temp_dir, Dir)] in
  (* try *)
  let '(disk2, (yielded, e)) := stream_body env format_choice patience disk1 in
  (* except Exception as e: print(...); raise *)
  let printed1 :=
    match e with
    | Faulted err => [lit "Temp download error: " ++ exn_str err]
    | _ => []
    end in
  (* finally: try: shutil.rmtree(temp_dir)  except Exception as e: print(...) *)
  let '(disk3, printed2) :=
    match rmtree_fault env with
    | None => (rmtree temp_dir disk2, [])
    | Some (err, removed) =>
        (rmtree_partly temp_dir removed disk2,
         [lit "Error cleaning up temp dir: " ++ exn_str err])
    end in
  {| chunks := yielded; ending := e; printed := printed1 ++ printed2;
     final_disk := disk3 |}.

(* ===================================================================== *)
(** * Python numbers as binary64 *)
(* ===================================================================== *)

(** An instance of [PyNum] in which every number is a double, as the
    percentages of the source are.  ([int] operands below 2^53 convert
    exactly.) *)
Module Double.

(** [float(z)], correctly rounded. *)
Definition of_Z (z : Z) : float := SF2Prim (binary_normalize prec emax z 0 false).

(** The sign of a finite [x] and [|x| * 10] rounded half-to-even to an
    integer, on the exact value of [x]. *)
Definition tenths (x : float) : option (bool * Z) :=
  match Prim2SF x with
  | S754_finite s m e =>
      let n := (Z.pos m * 10)%Z in
      if (0 <=? e)%Z then Some (s, n * 2 ^ e)%Z
      else
        let den := (2 ^ (- e))%Z in
        let q := (n / den)%Z in
        let r := (n mod den)%Z in
        Some (s, if (2 * r <? den)%Z then q
                 else if (den <? 2 * r)%Z then (q + 1)%Z
                 else if Z.even q then q else (q + 1)%Z)
  | S754_zero s => Some (s, 0%Z)
  | _ => None
  end.

(** [round(x, 1)]: the double nearest to the decimal that is nearest to
    [x] (ties to even).  From 2^53 tenths on, [x] is that double. *)
Definition round1 (x : float) : float :=
  match tenths x with
  | Some (s, k) =>
      if (k <? 2 ^ 53)%Z
      then (if s then - (of_Z k / of_Z 10) else of_Z k / of_Z 10)%float
      else x
  | None => x
  end.

Definition decimal (n : Z) : pystr := lit (NilZero.string_of_uint (N.to_uint (Z.to_N n))).

(** [str(x)] for the values [round1] produces (below 1e16, where Python
    prints them positionally with one decimal). *)
Definition str (x : float) : pystr :=
  match tenths x with
  | Some (s, k) =>
      (if s then lit "-" else []) ++ decimal (k / 10) ++ lit "." ++ decimal (k mod 10)
  | None => if (x =? x)%float then (if (x <? 0)%float then lit "-inf" else lit "inf")
            else lit "nan"
  end.

Definition truthy (x : float) : bool := negb (x =? 0)%float.
Definition gt0 (x : float) : bool := (0 <? x)%float.

End Double.

#[global] Instance float_eq_dec : EqDecision float.
Proof.
  intros x y. destruct (PrimFloat.Leibniz.eqb x y) eqn:E.
  - left. by apply Leibniz.eqb_spec.
  - right. intros Heq. apply Leibniz.eqb_spec in Heq. congruence.
Defined.

Lemma double_gt0_truthy (x : float) : Double.gt0 x = true -> Double.truthy x = true.
Proof.
  unfold Double.gt0, Double.truthy.
  rewrite ltb_spec, FloatAxioms.eqb_spec.
  change (Prim2SF 0) with (S754_zero false).
  destruct (Prim2SF x) as [s|s| |s m e]; try destruct s; cbn;
    try discriminate; reflexivity.
Qed.

Lemma double_gt0_zero : Double.gt0 (Double.of_Z 0) = false.
Proof. reflexivity. Qed.

#[global] Instance DoubleNum : PyNum := {|
  num := float;
  num_of_Z := Double.of_Z;
  num_bool := Double.truthy;
  num_gt0 := Double.gt0;
  num_div := PrimFloat.div;
  num_mul := PrimFloat.mul;
  num_round1 := Double.round1;
  num_str := Double.str;
  num_gt0_bool := double_gt0_truthy;
  num_gt0_zero := double_gt0_zero
|}.

(* ===================================================================== *)
(** * downloader.py: the formats offered and the formats selected *)
(* ===================================================================== *)

(** [str(z)] of an [int], as an f-string prints it. *)
Definition int_str (z : Z) : pystr :=
  if (z <? 0)%Z then lit "-" ++ Double.decimal (- z) else Double.decimal z.

(** [sub in s] *)
Fixpoint contains (sub s : pystr) : bool :=
  startswith sub s || match s with
                      | [] => false
                      | _ :: s' => contains sub s'
                      end.

(** ** [get_available_formats] *)

(** An entry of [info['formats']], with the keys the code reads.  [None]
    is a missing key or a [None] value; [f_filesize] keeps the two
    apart, since [f.get('filesize', 0)] does. *)
Record yt_format := {
  f_vcodec : option pystr;
  f_height : option Z;
  f_format_id : option pystr;
  f_ext : option pystr;
  f_filesize : option (option Z);
  f_acodec : option pystr
}.

(** A dict of the list [video_formats]. *)
Record video_format := {
  vf_height : Z;
  vf_format_id : pystr;
  vf_ext : pystr;
  vf_filesize : option Z;
  vf_has_audio : bool
}.

(** A dict of the returned list; only video options of a known height
    carry ['height']. *)
Record format_option := {
  fo_id : pystr;
  fo_label : pystr;
  fo_type : pystr;
  fo_ext : pystr;
  fo_height : option Z
}.

#[global] Instance format_option_eq_dec : EqDecision format_option.
Proof. solve_decision. Defined.

(** The test of the first loop: not audio-only, and
    [height and height >= 144]. *)
Definition eligible (f : yt_format) : bool :=
  negb (bool_decide (f_vcodec f = Some (lit "none")))
  && match f_height f with
     | Some height => negb (height =? 0)%Z && (144 <=? height)%Z
     | None => false
     end.

(** The first loop; [f['format_id']] raises when the key is missing. *)
Fixpoint collect_video_formats (formats : list yt_format)
    : exn + list video_format :=
  match formats with
  | [] => inr []
  | f :: rest =>
      if eligible f then
        match f_format_id f with
        | None => inl (key_error (lit "format_id"))
        | Some format_id =>
            match collect_video_formats rest with
            | inl e => inl e
            | inr video_formats =>
                inr ({| vf_height := default 0%Z (f_height f);
                        vf_format_id := format_id;
                        vf_ext := default (lit "mp4") (f_ext f);
                        vf_filesize := default (Some 0%Z) (f_filesize f);
                        vf_has_audio :=
                          negb (bool_decide (f_acodec f = Some (lit "none"))) |}
                     :: video_formats)
            end
        end
      else collect_video_formats rest
  end.

(** [video_formats.sort(key=lambda x: x['height'], reverse=True)]: by
    height, highest first, entries of one height in their order. *)
Fixpoint insert_by_height (x : video_format) (sorted : list video_format)
    : list video_format :=
  match sorted with
  | [] => [x]
  | y :: sorted' =>
      if (vf_height y <=? vf_height x)%Z then x :: sorted
      else y :: insert_by_height x sorted'
  end.

Definition sort_by_height (video_formats : list video_format)
    : list video_format :=
  foldr insert_by_height [] video_formats.

Definition quality_label (height : Z) : pystr :=
  lit "Video " ++ int_str height
  ++ (if (2160 <=? height)%Z then lit "p (4K) MP4"
      else if (1440 <=? height)%Z then lit "p (2K) MP4"
      else if (1080 <=? height)%Z then lit "p (Full HD) MP4"
      else if (720 <=? height)%Z then lit "p (HD) MP4"
      else lit "p MP4").

Definition video_option (height : Z) : format_option :=
  {| fo_id := lit "video_" ++ int_str height ++ lit "p";
     fo_label := quality_label height;
     fo_type := lit "video"; fo_ext := lit "mp4"; fo_height := Some height |}.

(** The second loop, with its set [seen_heights]. *)
Fixpoint quality_options (seen_heights : gset Z)
    (video_formats : list video_format) : list format_option :=
  match video_formats with
  | [] => []
  | vf :: rest =>
      let height := vf_height vf in
      if decide (height ∈ seen_heights) then quality_options seen_heights rest
      else video_option height :: quality_options ({[height]} ∪ seen_heights) rest
  end.

Definition audio_option : format_option :=
  {| fo_id := lit "audio_mp3"; fo_label := lit "Audio MP3 (mejor calidad)";
     fo_type := lit "audio"; fo_ext := lit "mp3"; fo_height := None |}.

Definition best_option : format_option :=
  {| fo_id := lit "video_best"; fo_label := lit "Video (mejor calidad disponible)";
     fo_type := lit "video"; fo_ext := lit "mp4"; fo_height := None |}.

(** [MediaEngine.get_available_formats(info)], on [info.get('formats')]
    ([None] when the key is missing or holds [None]). *)
Definition get_available_formats (info_formats : option (list yt_format))
    : exn + list format_option :=
  let formats := [audio_option] in
  match
    match info_formats with
    | Some (f :: fs) =>
        match collect_video_formats (f :: fs) with
        | inl e => inl e
        | inr video_formats =>
            inr (formats ++ quality_options ∅ (sort_by_height video_formats))
        end
    | _ => inr formats
    end
  with
  | inl e => inl e
  | inr formats =>
      inr (if decide (length formats = 1) then formats ++ [best_option]
           else formats)
  end.

(** The heights a list of options offers. *)
Definition offered_heights (options : list format_option) : list Z :=
  omap fo_height options.

(** ** The format handed to yt-dlp *)

(** [int(s)] is Python's; what the code relies on is that it reads back
    what [str] prints.  [None] stands for [ValueError]. *)
Class PyInt := {
  py_int : pystr -> option Z;
  py_int_str : forall z, py_int (int_str z) = Some z
}.

(** The keys of [ydl_opts] that depend on the format chosen. *)
Record format_opts := {
  opt_format : option pystr;
  opt_postprocessors : list (pystr * pystr * pystr);  (* key, codec, quality *)
  opt_merge_output_format : option pystr
}.

#[global] Instance format_opts_eq_dec : EqDecision format_opts.
Proof. solve_decision. Defined.

Definition best_selector : pystr :=
  lit "bestvideo[ext=mp4]+bestaudio[ext=m4a]/best[ext=mp4]/best".

Definition height_selector (height : Z) : pystr :=
  lit "bestvideo[height<=" ++ int_str height ++ lit "][ext=mp4]+bestaudio[ext=m4a]/"
  ++ lit "bestvideo[height<=" ++ int_str height ++ lit "]+bestaudio/"
  ++ lit "best[height<=" ++ int_str height ++ lit "]/"
  ++ lit "best".

Section FormatSelection.
Context `{PyInt}.

(** The block "Configure format based on choice" of [download_media]. *)
Definition download_media_opts (format_choice : pystr) : format_opts :=
  if startswith (lit "audio_") format_choice then
    {| opt_format := Some (lit "bestaudio/best");
       opt_postprocessors := [(lit "FFmpegExtractAudio", lit "mp3", lit "192")];
       opt_merge_output_format := None |}
  else if startswith (lit "video_") format_choice then
    {| opt_format :=
         if decide (format_choice = lit "video_best") then Some best_selector
         else
           let height_str :=
             str_replace (lit "p") []
               (str_replace (lit "video_") [] format_choice) in
           match py_int height_str with
           | Some height => Some (height_selector height)
           | None => Some best_selector
           end;
       opt_postprocessors := [];
       opt_merge_output_format := Some (lit "mp4") |}
  else
    {| opt_format := None; opt_postprocessors := [];
       opt_merge_output_format := None |}.

(** The same block of [stream_download]. *)
Definition stream_download_opts (format_choice : pystr) : format_opts :=
  if startswith (lit "audio_") format_choice then
    {| opt_format := Some (lit "bestaudio/best");
       opt_postprocessors := [(lit "FFmpegExtractAudio", lit "mp3", lit "192")];
       opt_merge_output_format := None |}
  else if startswith (lit "video_") format_choice then
    {| opt_format :=
         if decide (format_choice = lit "video_best") then Some best_selector
         else
           let height_str :=
             str_replace (lit "p") []
               (str_replace (lit "video_") [] format_choice) in
           match py_int height_str with
           | Some height => Some (height_selector height)
           | None => Some best_selector
           end;
       opt_postprocessors := [];
       opt_merge_output_format := Some (lit "mp4") |}
  else
    {| opt_format := None; opt_postprocessors := [];
       opt_merge_output_format := None |}.

End FormatSelection.

(** ** Vocabulary for the properties of the listing *)

(** The heights the first loop keeps: those of the formats that pass
    the filter. *)
Definition eligible_heights (formats : list yt_format) : list Z :=
  omap (fun f => if eligible f then f_height f else None) formats.

(** Sorted by height, highest first. *)
Definition descending (vfs : list video_format) : Prop :=
  StronglySorted (fun a b => (vf_height b <= vf_height a)%Z) vfs.

(** An ASCII decimal digit. *)
Definition is_digit (c : N) : Prop := (48 <= c <= 57)%N.

(** ** Reading plain decimal numerals *)

(** An instance of [PyInt] that reads what [int_str] prints: ASCII digits
    with an optional leading ['-'].  (Python's [int] accepts more:
    surrounding blanks, ['+'], underscores, other decimal digits.) *)
Module PlainInt.

Definition unlit (s : pystr) : option string :=
  if forallb (fun c => (c <? 256)%N) s
  then Some (string_of_list_ascii (map ascii_of_N s))
  else None.

Definition parse_nat (s : pystr) : option Z :=
  match unlit s with
  | Some text =>
      match NilZero.uint_of_string text with
      | Some d => Some (Z.of_N (N.of_uint d))
      | None => None
      end
  | None => None
  end.

Definition parse (s : pystr) : option Z :=
  match parse_nat s with
  | Some n => Some n
  | None =>
      match s with
      | 45%N :: digits => Z.opp <$> parse_nat digits
      | _ => None
      end
  end.

End PlainInt.

Lemma unlit_lit (text : string) : PlainInt.unlit (lit text) = Some text.
Proof.
  unfold PlainInt.unlit, lit.
  assert (Hall : forallb (fun c => (c <? 256)%N)
                   (map N_of_ascii (list_ascii_of_string text)) = true).
  { apply forallb_forall. intros c Hc. apply in_map_iff in Hc as (a & <- & _).
    apply N.ltb_lt, N_ascii_bounded. }
  rewrite Hall. f_equal. rewrite map_map.
  rewrite (map_ext _ (fun a => a)) by apply ascii_N_embedding.
  rewrite map_id. apply string_of_list_ascii_of_string.
Qed.

Lemma parse_nat_decimal (n : Z) :
  (0 <= n)%Z -> PlainInt.parse_nat (Double.decimal n) = Some n.
Proof.
  intros Hn. unfold PlainInt.parse_nat, Double.decimal. rewrite unlit_lit.
  rewrite NilZero.usu.
  - rewrite DecimalN.Unsigned.of_to. f_equal. lia.
  - destruct (Z.to_N n) as [|p]; simpl; [discriminate|].
    apply DecimalPos.Unsigned.to_uint_nonnil.
Qed.

Lemma parse_nat_minus (digits : pystr) : PlainInt.parse_nat (45%N :: digits) = None.
Proof.
  unfold PlainInt.parse_nat, PlainInt.unlit. cbn [forallb map].
  destruct (45 <? 256)%N; [|done]. cbn [andb].
  destruct (forallb _ digits); [|done]. cbn [string_of_list_ascii].
  change (ascii_of_N 45) with "-"%char.
  unfold NilZero.uint_of_string. cbn [NilEmpty.uint_of_string].
  by destruct (NilEmpty.uint_of_string _).
Qed.

Lemma plain_int_str (z : Z) : PlainInt.parse (int_str z) = Some z.
Proof.
  unfold PlainInt.parse, int_str. destruct (z <? 0)%Z eqn:Hz.
  - change (lit "-" ++ Double.decimal (- z)) with (45%N :: Double.decimal (- z)).
    rewrite parse_nat_minus, parse_nat_decimal by lia. simpl. f_equal. lia.
  - rewrite parse_nat_decimal; [done|lia].
Qed.

#[global] Instance PlainPyInt : PyInt :=
  {| py_int := PlainInt.parse; py_int_str := plain_int_str |}.


(* ===================================================================== *)
(** * downloader.py: [analyze_url]; app.py: the routes *)
(* ===================================================================== *)

Section Routes.
Context `{PyNum}.

(** The info dict of [extract_info(url, download=False)], with the keys
    [analyze_url] reads ([None]: the key is missing). *)
Record info_dict := {
  i_title : option pystr;
  i_duration : option pyval;
  i_thumbnail : option pystr;
  i_uploader : option pystr;
  i_extractor_key : option pystr;
  i_formats : option (list yt_format)
}.

(** What [ydl.extract_info(url, download=False)] ends with. *)
Inductive metadata_outcome :=
  | MetaNone
  | Meta (info : info_dict)
  | MetaRaises (e : exn).

(** The ['info'] dict of a successful analysis. *)
Record info_summary := {
  s_title : pystr;
  s_duration : pyval;
  s_thumbnail : pystr;
  s_uploader : pystr;
  s_platform : pystr
}.

(** What [analyze_url] returns: ['success': True] with ['info'] and
    ['formats'], or ['success': False] with ['error']. *)
Inductive analysis :=
  | AnalysisOk (info : info_summary) (formats : list format_option)
  | AnalysisError (error : pystr).

(** ['No se pudo obtener información del enlace'] *)
Definition no_info_msg : pystr :=
  lit "No se pudo obtener informaci" ++ [243%N] ++ lit "n del enlace".

(** ['El contenido es privado o no está disponible'] *)
Definition private_msg : pystr :=
  lit "El contenido es privado o no est" ++ [225%N] ++ lit " disponible".

Definition unsupported_msg : pystr :=
  lit "URL no soportada. Verifica que sea de YouTube, Instagram, TikTok o Facebook".

Definition summary_of (info : info_dict) : info_summary :=
  {| s_title := default sin_titulo (i_title info);
     s_duration := dict_get0 (i_duration info);
     s_thumbnail := default [] (i_thumbnail info);
     s_uploader := default (lit "Desconocido") (i_uploader info);
     s_platform := default (lit "Unknown") (i_extractor_key info) |}.

(** The two [except] clauses of [analyze_url]. *)
Definition analysis_error (e : exn) : pystr :=
  if decide (exn_class_of e = DownloadError) then
    let error_msg := exn_str e in
    if contains (lit "Private video") error_msg
       || contains (lit "not available") error_msg
    then private_msg
    else if contains (lit "Unsupported URL") error_msg then unsupported_msg
    else lit "Error al analizar: " ++ error_msg
  else lit "Error inesperado: " ++ exn_str e.

(** [MediaEngine.analyze_url(url)]; [lookup] is yt-dlp's metadata
    extraction. *)
Definition analyze_url (lookup : pystr -> metadata_outcome) (url : pystr)
    : analysis :=
  match
    match lookup url with
    | MetaRaises e => inl e
    | MetaNone => inr (AnalysisError no_info_msg)
    | Meta info =>
        match get_available_formats (i_formats info) with
        | inl e => inl e
        | inr formats => inr (AnalysisOk (summary_of info) formats)
        end
    end
  with
  | inr result => result
  | inl e => AnalysisError (analysis_error e)
  end.

(** The body and the status code of a JSON response. *)
Inductive json_body :=
  | JsonAnalysis (result : analysis)       (* [jsonify(result)] *)
  | JsonError (error : pystr).             (* ['success': False, 'error': ...] *)

(** [str.startswith(('http://', 'https://'))] *)
Definition is_http (url : pystr) : bool :=
  startswith (lit "http://") url || startswith (lit "https://") url.

(** ['Por favor ingresa una URL válida'] *)
Definition enter_url_msg : pystr :=
  lit "Por favor ingresa una URL v" ++ [225%N] ++ lit "lida".

(** The route [analyze()].  [request_url] is what
    [request.get_json().get('url', '')] gives: an exception (no JSON
    object in the body, or a value without [strip]), no such key, or the
    string. *)
Definition analyze (lookup : pystr -> metadata_outcome)
    (request_url : exn + option pystr) : json_body * Z :=
  match request_url with
  | inl e => (JsonError (lit "Error del servidor: " ++ exn_str e), 500%Z)
  | inr entry =>
      let url := strip (default [] entry) in
      if decide (url = []) then (JsonError enter_url_msg, 400%Z)
      else if negb (is_http url)
      then (JsonError (lit "La URL debe comenzar con http:// o https://"), 400%Z)
      else
        let result := analyze_url lookup url in
        match result with
        | AnalysisOk _ _ => (JsonAnalysis result, 200%Z)
        | AnalysisError _ => (JsonAnalysis result, 400%Z)
        end
  end.

(** The inner [generate()] of [download()]: it forwards the chunks of
    [stream_download]; an exception of that generator is printed and
    ends the response body; [close()] passes through it to the
    abandoned generator. *)
Definition route_generate (run : stream_trace) : stream_trace :=
  match ending run with
  | Faulted e =>
      {| chunks := chunks run; ending := Exhausted;
         printed := printed run ++ [lit "Streaming error: " ++ exn_str e];
         final_disk := final_disk run |}
  | _ => run
  end.

(** What [download()] returns: a JSON refusal, or the streamed response
    with its headers and its body as a generator still to be run. *)
Inductive download_reply :=
  | Refused (error : pystr) (status_code : Z)
  | Streamed (mimetype content_disposition cache_control : pystr)
      (body : option nat -> fs -> stream_trace).

(** The route [download()].  [request] is the pair of
    [data.get('url', '')] and [data.get('format', 'video_best')], or the
    exception raised on the way to them or by a value among them that
    is not a string; [world url] is what the streaming of [url]
    meets. *)
Definition download (unicode_alnum : N -> bool)
    (lookup : pystr -> metadata_outcome) (world : pystr -> stream_env)
    (request : exn + (option pystr * option pystr)) : download_reply :=
  match request with
  | inl e => Refused (lit "Error al iniciar descarga: " ++ exn_str e) 500
  | inr (url_entry, format_entry) =>
      let url := strip (default [] url_entry) in
      let format_choice := default (lit "video_best") format_entry in
      if decide (url = []) then Refused (lit "URL no proporcionada") 400
      else
        match analyze_url lookup url with
        | AnalysisError _ => Refused (lit "No se pudo analizar la URL") 400
        | AnalysisOk info _ =>
            let filename :=
              download_filename unicode_alnum (s_title info) format_choice in
            Streamed
              (download_mimetype format_choice)
              (lit "attachment; filename=" ++ [34%N] ++ filename ++ [34%N])
              (lit "no-cache")
              (fun patience disk =>
                 route_generate
                   (stream_download (world url) format_choice patience disk))
        end
  end.

End Routes.

(** What the table tells about the workers, in every reachable state: a
    task without a worker has no record, the record of a fetching worker
    is ['downloading'] or ['processing'], that of a finished one is
    terminal. *)
Definition worker_inv `{PyNum} (sys : system) : Prop :=
  ∀ t, match workers sys !! t with
       | None => table sys !! t = None
       | Some Fetching =>
           ∀ r, table sys !! t = Some r ->
                status r = lit "downloading" ∨ status r = lit "processing"
       | Some Done => ∀ r, table sys !! t = Some r -> terminal r = true
       end.

(* ===================================================================== *)
(** * Concrete runs *)
(* ===================================================================== *)

(** ** The scenario of the specification, on binary64 numbers *)

Definition demo_task : pystr := lit "task-1".

Definition demo_info (status : string) (p : float) : @progress_info DoubleNum :=
  {| pi_status := lit status; pi_percentage := p; pi_downloaded := None;
     pi_total := None; pi_speed := None; pi_eta := None |}.

(** Launch, ['downloading'] at 42.37 %, ['finished'], success with
    ["My Song.mp3"]. *)
Definition demo_labels : list (@label DoubleNum) :=
  [Launch demo_task;
   Callback demo_task (demo_info "downloading" (4237 / 100));
   Callback demo_task (demo_info "finished" 100);
   Finish demo_task
     (inr (DMSuccess (lit "My Song.mp3") (lit "static/downloads/My Song.mp3")
             (lit "My Song")))].

Definition demo_system : @system DoubleNum :=
  {| table := {[demo_task := completed_record (lit "My Song.mp3")]};
     workers := {[demo_task := Done]} |}.

(** A dict as yt-dlp sends it: 4237 bytes of a total. *)
Definition demo_dict (total_bytes : option (@pyval DoubleNum))
    : @progress_dict DoubleNum :=
  {| d_status := lit "downloading";
     d_total_bytes := total_bytes;
     d_total_bytes_estimate := None;
     d_downloaded_bytes := Some (PyNumber (Double.of_Z 4237));
     d_speed := None; d_eta := None |}.

(** ** Runs of [stream_download] *)

Definition demo_tmp : pystr := lit "/tmp/tmpa1b2c3".
Definition demo_file : list byte := [x01; x02; x03]%byte.

(** yt-dlp predicts [clip.webm] and leaves the merged [clip.mp4]. *)
Definition demo_fetch (temp_dir : pystr) (disk : fs) : fs * engine_outcome :=
  (disk ++ [(temp_dir ++ lit "/clip.mp4", File demo_file)],
   Info (temp_dir ++ lit "/clip.webm") (Some (lit "clip"))).

Definition demo_env (rmtree_fails : bool) : stream_env :=
  {| tmp_name := demo_tmp; fetch := demo_fetch; open_fault := None;
     read_fault := fun _ => None;
     rmtree_fault := if rmtree_fails
                     then Some (Exn OSError (lit "[Errno 13] Permission denied"),
                                fun _ => false)
                     else None |}.

Definition long_file : list byte := replicate (N.to_nat 20000) x2a%byte.

Definition long_env (reads : nat -> option exn) : stream_env :=
  {| tmp_name := demo_tmp;
     fetch := fun temp_dir disk =>
       (disk ++ [(temp_dir ++ lit "/clip.mp4", File long_file)],
        Info (temp_dir ++ lit "/clip.mp4") None);
     open_fault := None; read_fault := reads; rmtree_fault := None |}.

Definition failing_env : stream_env :=
  {| tmp_name := demo_tmp;
     fetch := fun temp_dir disk =>
       (disk ++ [(temp_dir ++ lit "/clip.mp4.part", File demo_file)],
        EngineRaises (Exn DownloadError (lit "ERROR: unable to download")));
     open_fault := None; read_fault := fun _ => None; rmtree_fault := None |}.

(** ** A listing of formats, an analysis and a streamed download *)

Definition demo_format (vcodec : string) (height : option Z) (format_id : string)
    : yt_format :=
  {| f_vcodec := Some (lit vcodec); f_height := height;
     f_format_id := Some (lit format_id); f_ext := Some (lit "mp4");
     f_filesize := None; f_acodec := Some (lit "none") |}.

(** 720p twice, an audio-only format, 1080p, 2160p and a 100p preview. *)
Definition demo_formats : list yt_format :=
  [demo_format "avc1" (Some 720%Z) "136"; demo_format "none" None "140";
   demo_format "avc1" (Some 1080%Z) "137"; demo_format "vp9" (Some 720%Z) "247";
   demo_format "vp9" (Some 2160%Z) "313"; demo_format "avc1" (Some 100%Z) "160"].

Definition demo_options : list format_option :=
  [audio_option; video_option 2160; video_option 1080; video_option 720].

Definition demo_meta : @info_dict DoubleNum :=
  {| i_title := Some (lit "A/B: Test*File??"); i_duration := None;
     i_thumbnail := None; i_uploader := None;
     i_extractor_key := Some (lit "Youtube"); i_formats := Some demo_formats |}.

Definition demo_lookup (url : pystr) : @metadata_outcome DoubleNum :=
  Meta demo_meta.

(** A request for the audio of a URL typed with blanks around it. *)
Definition demo_request : exn + (option pystr * option pystr) :=
  inr (Some (lit "  https://example.com/watch?v=1 "), Some (lit "audio_mp3")).

Definition demo_body (patience : option nat) (disk : fs) : stream_trace :=
  route_generate (stream_download (demo_env false) (lit "audio_mp3") patience disk).

(** yt-dlp reports one event and delivers ["My Song.webm"]. *)
Definition demo_engine (url format_choice : pystr) : @engine_run DoubleNum :=
  {| run_events := [demo_dict (Some (PyNumber (Double.of_Z 10000)))];
     run_outcome := Info (lit "static/downloads/My Song.webm") (Some (lit "My Song")) |}.

(** The system after the launch of the worker of [demo_task]. *)
Definition fetching_system : @system DoubleNum :=
  {| table := {[demo_task := connecting_record]};
     workers := {[demo_task := Fetching]} |}.

(** A fetch that reports success and leaves no file. *)
Definition empty_env : stream_env :=
  {| tmp_name := demo_tmp;
     fetch := fun temp_dir disk => (disk, Info (temp_dir ++ lit "/clip.mp4") None);
     open_fault := None; read_fault := fun _ => None; rmtree_fault := None |}.

(** An event whose [total_bytes_estimate] is present and [None], and a
    run of yt-dlp that reports it after a regular event. *)
Definition none_total_dict : @progress_dict DoubleNum :=
  {| d_status := lit "downloading";
     d_total_bytes := None;
     d_total_bytes_estimate := Some PyNone;
     d_downloaded_bytes := Some (PyNumber (Double.of_Z 4237));
     d_speed := None; d_eta := None |}.

Definition none_total_engine (url format_choice : pystr) : @engine_run DoubleNum :=
  {| run_events := [demo_dict (Some (PyNumber (Double.of_Z 10000))); none_total_dict];
     run_outcome := Info (lit "static/downloads/My Song.webm") (Some (lit "My Song")) |}.

(* ===================================================================== *)
(** * Properties *)
(* ===================================================================== *)

Section HookFacts.
Context `{PyNum}.

Lemma hook_cases {St} (cb : progress_info -> M St unit) (d : progress_dict) (s : St) :
  hook (Some cb) d s = (s, inr tt)
  ∨ (∃ m, hook (Some cb) d s = (s, inl (Exn TypeError m)))
  ∨ (∃ ev, hook (Some cb) d s = cb ev s).
Proof.
  unfold hook. repeat case_decide; eauto.
  unfold mbind, M_bind, bind, lift.
  destruct (hook_total d) as [|t]; simpl; [right; left; eauto|].
  destruct (num_gt0 t) eqn:Hgt; [|by left].
  destruct (hook_downloaded d) as [|dl]; simpl; [right; left; eauto|].
  rewrite (num_gt0_bool _ Hgt). simpl. right; right; eauto.
Qed.

(** With a positive total the callback is invoked once, on the event
    that carries [downloaded / total * 100]. *)
Lemma hook_downloading_positive {St} (cb : progress_info -> M St unit)
    (d : progress_dict) (t dl : num) (s : St) :
  d_status d = lit "downloading" ->
  hook_total d = PyNumber t -> num_gt0 t = true ->
  hook_downloaded d = PyNumber dl ->
  hook (Some cb) d s =
    cb {| pi_status := lit "downloading";
          pi_percentage := num_mul (num_div dl t) (num_of_Z 100);
          pi_downloaded := Some (PyNumber dl);
          pi_total := Some (PyNumber t);
          pi_speed := Some (dict_get0 (d_speed d));
          pi_eta := Some (dict_get0 (d_eta d)) |} s.
Proof.
  intros Hst Ht Hgt Hdl. unfold hook. rewrite decide_True by done.
  unfold mbind, M_bind, bind, lift. rewrite Ht, Hdl. simpl.
  rewrite Hgt, (num_gt0_bool _ Hgt). reflexivity.
Qed.

(** Without one the hook returns at once, or raises on [None > 0]. *)
Lemma hook_downloading_not_positive {St} (cb : progress_info -> M St unit)
    (d : progress_dict) (s : St) :
  d_status d = lit "downloading" ->
  (hook_total d = PyNone ∨ ∃ t, hook_total d = PyNumber t ∧ num_gt0 t = false) ->
  hook (Some cb) d s = (s, inr tt)
  ∨ ∃ m, hook (Some cb) d s = (s, inl (Exn TypeError m)).
Proof.
  intros Hst Ht. unfold hook. rewrite decide_True by done.
  unfold mbind, M_bind, bind, lift.
  destruct Ht as [-> | (t & -> & Hgt)]; simpl.
  - right. eauto.
  - rewrite Hgt. by left.
Qed.

(** A total that is missing altogether counts as zero. *)
Lemma hook_total_unknown (d : progress_dict) :
  (d_total_bytes d = None ∨ d_total_bytes d = Some PyNone) ->
  d_total_bytes_estimate d = None ->
  hook_total d = PyNumber (num_of_Z 0).
Proof.
  intros Htb Hest. unfold hook_total, py_or. rewrite Hest.
  by destruct Htb as [-> | ->].
Qed.

(** C10.  The progress hook forwards a ['downloading'] event only when the
    total byte count ([total_bytes], else [total_bytes_estimate], else 0)
    is greater than zero, and that event carries the percentage
    [downloaded / total * 100]; when the total is zero or unknown nothing
    is forwarded; and the hook never raises [ZeroDivisionError]. *)
Theorem hook_forwards_only_positive_totals (d : progress_dict) :
  (∀ ev, ev ∈ forwarded d -> pi_status ev = lit "downloading" ->
     ∃ t dl, d_status d = lit "downloading"
       ∧ hook_total d = PyNumber t ∧ num_gt0 t = true
       ∧ hook_downloaded d = PyNumber dl
       ∧ pi_percentage ev = num_mul (num_div dl t) (num_of_Z 100))
  ∧ (∀ t dl, d_status d = lit "downloading" ->
       hook_total d = PyNumber t -> num_gt0 t = true ->
       hook_downloaded d = PyNumber dl ->
       ∃ ev, forwarded d = [ev] ∧ pi_status ev = lit "downloading"
         ∧ pi_percentage ev = num_mul (num_div dl t) (num_of_Z 100))
  ∧ (d_status d = lit "downloading" ->
       (hook_total d = PyNone ∨ ∃ t, hook_total d = PyNumber t ∧ num_gt0 t = false) ->
       forwarded d = [])
  ∧ (d_status d = lit "downloading" ->
       (d_total_bytes d = None ∨ d_total_bytes d = Some PyNone) ->
       d_total_bytes_estimate d = None ->
       forwarded d = [] ∧ hook_result d = inr tt)
  ∧ (∀ m, hook_result d ≠ inl (Exn ZeroDivisionError m)).
Proof.
  assert (Hskip : d_status d = lit "downloading" ->
       (hook_total d = PyNone ∨ ∃ t, hook_total d = PyNumber t ∧ num_gt0 t = false) ->
       forwarded d = []).
  { intros Hst Ht. unfold forwarded.
    by destruct (hook_downloading_not_positive record_event d [] Hst Ht)
      as [-> | [m ->]]. }
  split_and!.
  - intros ev Hin Hev.
    destruct (decide (d_status d = lit "downloading")) as [Hst|Hst].
    + destruct (hook_total d) as [|t] eqn:Ht.
      { rewrite Hskip in Hin by auto. by apply elem_of_nil in Hin. }
      destruct (num_gt0 t) eqn:Hgt.
      2:{ rewrite Hskip in Hin by eauto. by apply elem_of_nil in Hin. }
      destruct (hook_downloaded d) as [|dl] eqn:Hdl.
      { exfalso. revert Hin. unfold forwarded, hook.
        rewrite decide_True by done.
        unfold mbind, M_bind, bind, lift. rewrite Ht, Hdl. simpl. rewrite Hgt.
        simpl. apply not_elem_of_nil. }
      exists t, dl. split_and!; try done.
      revert Hin. unfold forwarded.
      rewrite (hook_downloading_positive _ _ t dl) by done.
      simpl. intros ->%list_elem_of_singleton. done.
    + exfalso. revert Hin. unfold forwarded, hook.
      rewrite decide_False by done.
      repeat case_decide; simpl; try apply not_elem_of_nil.
      * intros ->%list_elem_of_singleton. simpl in Hev. discriminate Hev.
      * intros ->%list_elem_of_singleton. simpl in Hev. discriminate Hev.
  - intros t dl Hst Ht Hgt Hdl. eexists. unfold forwarded.
    rewrite (hook_downloading_positive _ _ t dl) by done. simpl. done.
  - exact Hskip.
  - intros Hst Htb Hest.
    pose proof (hook_total_unknown d Htb Hest) as Ht. split.
    + apply Hskip; [done|]. right. eexists. split; [done|]. apply num_gt0_zero.
    + unfold hook_result, hook. rewrite decide_True by done.
      unfold mbind, M_bind, bind, lift. rewrite Ht. simpl.
      by rewrite num_gt0_zero.
  - intros m. unfold hook_result.
    destruct (hook_cases record_event d []) as [-> | [[m' ->] | [ev ->]]];
      simpl; congruence.
Qed.
End HookFacts.

Section WorkerFacts.
Context `{PyNum}.

Implicit Types (s : store) (task_id url format_choice : pystr).

(** The worker is: the launch write, the adapter, the final write. *)
Lemma download_worker_with_eq adapter task_id url format_choice s :
  let run := adapter url format_choice (Some (progress_callback task_id))
               (<[task_id := connecting_record]> s) in
  download_worker_with adapter task_id url format_choice s
  = (finish_write task_id run.2 run.1, inr tt).
Proof.
  unfold download_worker_with, try_except, mbind, M_bind, bind, modify. simpl.
  destruct (adapter _ _ _ _) as [s1 [e|result]]; reflexivity.
Qed.

(** [download_media] catches what yt-dlp and the hooks raise. *)
Lemma download_media_never_raises {St} engine download_path url format_choice
    (cb : option (progress_info -> M St unit)) (st : St) :
  ∃ st' result,
    download_media engine download_path url format_choice cb st = (st', inr result).
Proof.
  unfold download_media, try_except, mbind, M_bind, bind.
  destruct (extract_info _ _ st) as [st1 [e|info]].
  - case_decide; eauto.
  - destruct info; eauto.
Qed.

(** Its failures carry a text that starts with one of three fixed ones. *)
Lemma download_media_failure_text {St} engine download_path url format_choice
    (cb : option (progress_info -> M St unit)) (st st' : St) error :
  download_media engine download_path url format_choice cb st
    = (st', inr (DMFailure error)) ->
  ∃ prefix rest, prefix ∈ failure_prefixes ∧ error = Some (prefix ++ rest).
Proof.
  unfold download_media, try_except, mbind, M_bind, bind, failure_prefixes.
  destruct (extract_info _ _ st) as [st1 [e|info]].
  - case_decide; intros [= <- <-].
    + exists (lit "Error de descarga: "), (exn_str e). split; [set_solver|done].
    + exists (lit "Error inesperado: "), (exn_str e). split; [set_solver|done].
  - destruct info; simpl; intros [= <- <-];
      exists (lit "No se pudo descargar el archivo"), [];
      (split; [set_solver|done]).
Qed.

Lemma download_media_success_name {St} engine download_path url format_choice
    (cb : option (progress_info -> M St unit)) (st st' : St) name path title :
  download_media engine download_path url format_choice cb st
    = (st', inr (DMSuccess name path title)) ->
  ∃ prepared t, run_outcome (engine url format_choice) = Info prepared t
    ∧ name = basename (actual_filename format_choice prepared).
Proof.
  unfold download_media, extract_info, try_except, mbind, M_bind, bind.
  destruct (extract_events _ _ st) as [st1 [e|[]]]; simpl.
  - case_decide; intros [=].
  - destruct (run_outcome _) as [|prepared t|e]; simpl.
    + intros [=].
    + intros [= <- <- <- <-]. eauto.
    + unfold raise. case_decide; intros [=].
Qed.

Lemma failure_prefix_nonempty (prefix rest : pystr) :
  prefix ∈ failure_prefixes -> prefix ++ rest ≠ [].
Proof.
  unfold failure_prefixes. intros Hin Hnil.
  apply app_eq_nil in Hnil as [-> _].
  repeat (apply elem_of_cons in Hin as [Hin|Hin]; [discriminate Hin|]).
  by apply elem_of_nil in Hin.
Qed.

(** C2.  The worker never raises: over any adapter it returns normally,
    and when the adapter reports a failure or raises, the record it
    leaves under the task id is an ['error'] record with the adapter's
    text (or ['Error: '] and the text of the exception).  With the
    repository's own [download_media] the record left is ['completed']
    or an ['error'] with a non-empty message, the latter whenever yt-dlp
    does not deliver an info dict. *)
Theorem download_worker_never_raises task_id url format_choice s :
  (∀ adapter,
     let run := adapter url format_choice (Some (progress_callback task_id))
                  (<[task_id := connecting_record]> s) in
     ∃ s', download_worker_with adapter task_id url format_choice s = (s', inr tt)
       ∧ (∀ error, run.2 = inr (DMFailure error) ->
            s' !! task_id
            = Some (error_record (default (lit "Error desconocido") error)))
       ∧ (∀ e, run.2 = inl e ->
            s' !! task_id = Some (error_record (lit "Error: " ++ exn_str e))))
  ∧ (∀ engine,
     ∃ s' r, download_worker engine task_id url format_choice s = (s', inr tt)
       ∧ s' !! task_id = Some r
       ∧ (status r = lit "completed" ∨ status r = lit "error" ∧ message r ≠ [])
       ∧ ((∀ prepared title,
             run_outcome (engine url format_choice) ≠ Info prepared title) ->
          status r = lit "error" ∧ message r ≠ [])).
Proof.
  split.
  - intros adapter run. eexists. split; [apply download_worker_with_eq|].
    fold run. split.
    + intros error ->. simpl. apply lookup_insert_eq.
    + intros e ->. simpl. apply lookup_insert_eq.
  - intros engine. unfold download_worker.
    rewrite download_worker_with_eq.
    destruct (download_media_never_raises engine (lit "static/downloads") url
                format_choice (Some (progress_callback task_id))
                (<[task_id := connecting_record]> s)) as (s1 & result & Hrun).
    rewrite Hrun. simpl. eexists _, _. split; [done|].
    split; [apply lookup_insert_eq|].
    destruct result as [name path title|error]; simpl.
    + split; [by left|]. intros Hno.
      apply download_media_success_name in Hrun as (prepared & t & Hinfo & _).
      by specialize (Hno prepared t).
    + apply download_media_failure_text in Hrun as (prefix & rest & Hin & ->).
      simpl. pose proof (failure_prefix_nonempty prefix rest Hin).
      split; [by right|done].
Qed.

(** C4.  What the worker records, and when.  The adapter (and so every
    callback) starts from the table in which the worker has stored
    ['downloading'], 0, ['Conectando...']; a ['downloading'] event with
    percentage [p] stores ['downloading'] with [round(p, 1)]; a
    ['finished'] event turns the stored record into ['processing'];
    any other event changes nothing; and a success of the adapter
    stores ['completed'] with the file name and ['/downloads/'] joined
    with it. *)
Theorem worker_event_mapping task_id :
  (∀ adapter url format_choice s,
     download_worker_with adapter task_id url format_choice s
     = let run := adapter url format_choice (Some (progress_callback task_id))
            (<[task_id :=
                 {| status := lit "downloading"; percentage := num_of_Z 0;
                    message := lit "Conectando..."; filename := None;
                    download_url := None |}]> s) in
       (finish_write task_id run.2 run.1, inr tt))
  ∧ (∀ info s,
       pi_status info = lit "downloading" ->
       progress_callback task_id info s
       = (<[task_id :=
              {| status := lit "downloading";
                 percentage := num_round1 (pi_percentage info);
                 message := lit "Descargando... "
                            ++ num_str (num_round1 (pi_percentage info)) ++ lit "%";
                 filename := None; download_url := None |}]> s, inr tt))
  ∧ (∀ info s r,
       pi_status info = lit "finished" -> s !! task_id = Some r ->
       progress_callback task_id info s
       = (<[task_id :=
              {| status := lit "processing"; percentage := percentage r;
                 message := lit "Procesando archivo..."; filename := filename r;
                 download_url := download_url r |}]> s, inr tt))
  ∧ (∀ info s,
       pi_status info ≠ lit "downloading" -> pi_status info ≠ lit "finished" ->
       progress_callback task_id info s = (s, inr tt))
  ∧ (∀ name path title s,
       finish_write task_id (inr (DMSuccess name path title)) s
       = <[task_id :=
             {| status := lit "completed"; percentage := num_of_Z 100;
                message := lit "Descarga completada"; filename := Some name;
                download_url := Some (lit "/downloads/" ++ name) |}]> s).
Proof.
  split_and!.
  - intros. apply download_worker_with_eq.
  - intros info s Hst. unfold progress_callback. by rewrite decide_True.
  - intros info s r Hst Hr. unfold progress_callback.
    rewrite decide_False by (rewrite Hst; discriminate).
    rewrite decide_True by done. by rewrite Hr.
  - intros info s Hd Hf. unfold progress_callback.
    by rewrite !decide_False.
  - reflexivity.
Qed.
End WorkerFacts.

Section NotifierFacts.
Context `{PyNum}.

Implicit Types (task_id : pystr) (polls later : list store)
  (last : option progress_record).

(** One iteration of the loop. *)
Lemma generate_step task_id last (dp : store) later :
  let current := current_progress task_id dp in
  generate task_id last (dp :: later)
  = if decide (Some current = last)
    then (if stops_stream current then ([], true)
          else generate task_id last later)
    else (if stops_stream current then ([current], true)
          else (current :: (generate task_id (Some current) later).1,
                (generate task_id (Some current) later).2)).
Proof.
  simpl. case_decide as Heq.
  - rewrite bool_decide_eq_false_2 by (intros Hne; by apply Hne).
    destruct (stops_stream _); [done|]. by destruct (generate _ _ _).
  - rewrite bool_decide_eq_true_2 by done.
    destruct (stops_stream _); [done|]. by destruct (generate _ _ _).
Qed.

Lemma generate_spec task_id last polls :
  (generate task_id last polls).1
  = suppress_repeats last (upto_stop (map (current_progress task_id) polls)).
Proof.
  revert last. induction polls as [|dp later IH]; intros last; [done|].
  rewrite generate_step. cbn [map upto_stop].
  destruct (stops_stream (current_progress task_id dp)) eqn:Hstop;
    cbn [suppress_repeats]; case_decide; simpl; by rewrite ?IH.
Qed.

Lemma generate_stops task_id last polls :
  (generate task_id last polls).2
  = bool_decide (Exists (fun dp => stops_stream (current_progress task_id dp) = true) polls).
Proof.
  revert last. induction polls as [|dp later IH]; intros last.
  - symmetry. apply bool_decide_eq_false_2. by intros ?%Exists_nil.
  - rewrite generate_step.
    destruct (stops_stream (current_progress task_id dp)) eqn:Hstop.
    + transitivity true; [by case_decide|].
      symmetry. apply bool_decide_eq_true_2. by left.
    + transitivity (bool_decide (Exists
        (fun dp => stops_stream (current_progress task_id dp) = true) later)).
      { case_decide; simpl; apply IH. }
      apply bool_decide_ext. rewrite Exists_cons, Hstop.
      split; [by right|by intros [?|?]].
Qed.

Lemma generate_no_repeat task_id last polls :
  no_repeat last (generate task_id last polls).1.
Proof.
  revert last. induction polls as [|dp later IH]; intros last; [done|].
  rewrite generate_step.
  case_decide as Heq; destruct (stops_stream _); simpl; auto;
    (split; [congruence|auto]).
Qed.

Lemma no_repeat_adjacent last (events : list progress_record) i a b :
  no_repeat last events ->
  events !! i = Some a -> events !! S i = Some b -> a ≠ b.
Proof.
  revert last i. induction events as [|r events IH]; intros last i Hnr Ha Hb.
  { done. }
  destruct Hnr as [_ Hnr]. destruct i as [|i].
  - simpl in Ha. injection Ha as ->.
    destruct events as [|r' events]; [done|].
    simpl in Hb. injection Hb as ->. destruct Hnr as [Hne _]. congruence.
  - eapply IH; eauto.
Qed.

Lemma upto_stop_sublist (rs : list progress_record) : sublist (upto_stop rs) rs.
Proof.
  induction rs as [|r rs IH]; simpl; [constructor|].
  destruct (stops_stream r).
  - apply sublist_skip. apply sublist_nil_l.
  - by apply sublist_skip.
Qed.

Lemma suppress_repeats_sublist last (rs : list progress_record) :
  sublist (suppress_repeats last rs) rs.
Proof.
  revert last. induction rs as [|r rs IH]; intros last; simpl; [constructor|].
  case_decide; [apply sublist_cons, IH|apply sublist_skip, IH].
Qed.

End NotifierFacts.

Section SystemFacts.
Context `{PyNum}.

Implicit Types (sys : system) (l : label) (ls : list label)
  (s : store) (t task_id : pystr) (r : progress_record).

(** A callback only touches the record of its own task, and leaves there
    the old record or one that is ['downloading'] or ['processing']. *)
Lemma progress_callback_other task_id info s t :
  t ≠ task_id -> (progress_callback task_id info s).1 !! t = s !! t.
Proof.
  intros Hne. unfold progress_callback.
  repeat case_decide; simpl; try done.
  - by rewrite lookup_insert_ne.
  - destruct (s !! task_id) eqn:Hs; simpl; [|done]. by rewrite lookup_insert_ne.
Qed.

Lemma progress_callback_own task_id info s r :
  (progress_callback task_id info s).1 !! task_id = Some r ->
  s !! task_id = Some r
  ∨ status r = lit "downloading" ∨ status r = lit "processing".
Proof.
  unfold progress_callback. repeat case_decide; simpl; auto.
  - rewrite lookup_insert_eq. intros [= <-]. right; left; reflexivity.
  - destruct (s !! task_id) as [r0|] eqn:Hs; simpl; [|by rewrite Hs].
    rewrite lookup_insert_eq. intros [= <-]. right; right; reflexivity.
Qed.

Lemma finish_write_other task_id outcome s t :
  t ≠ task_id -> finish_write task_id outcome s !! t = s !! t.
Proof. intros Hne. destruct outcome; simpl; by rewrite lookup_insert_ne. Qed.

Lemma finish_write_own task_id outcome s :
  ∃ r, finish_write task_id outcome s !! task_id = Some r
    ∧ (status r = lit "completed" ∨ status r = lit "error").
Proof.
  destruct outcome as [e|[name path title|error]]; simpl;
    eexists; (split; [apply lookup_insert_eq|]); by (left + right).
Qed.

Lemma terminal_downloading r : status r = lit "downloading" -> terminal r = false.
Proof. unfold terminal. by intros ->. Qed.

Lemma terminal_processing r : status r = lit "processing" -> terminal r = false.
Proof. unfold terminal. by intros ->. Qed.

Lemma sys_inv_initial : sys_inv initial_system.
Proof. intros t r. simpl. by rewrite lookup_empty. Qed.

Lemma sys_inv_step l sys sys' :
  sys_inv sys -> sys_step l sys = Some sys' -> sys_inv sys'.
Proof.
  intros Hinv Hstep t r.
  destruct l as [task_id|task_id info|task_id outcome|task_id|task_id];
    simpl in Hstep.
  - destruct (workers sys !! task_id) eqn:Hw; [done|]. injection Hstep as <-.
    simpl. destruct (decide (t = task_id)) as [->|Hne].
    + rewrite lookup_insert_eq. intros [= <-]. split; [set_solver|done].
    + rewrite !lookup_insert_ne by done. apply Hinv.
  - destruct (workers sys !! task_id) as [[]|] eqn:Hw; try done.
    injection Hstep as <-. simpl. destruct (decide (t = task_id)) as [->|Hne].
    + intros Hr. apply progress_callback_own in Hr as [Hr|[Hr|Hr]].
      * destruct (Hinv _ _ Hr) as [Hst Hterm]. split; [done|].
        intros Ht. specialize (Hterm Ht). congruence.
      * split; [rewrite Hr; set_solver|]. by rewrite terminal_downloading.
      * split; [rewrite Hr; set_solver|]. by rewrite terminal_processing.
    + rewrite progress_callback_other by done. apply Hinv.
  - destruct (workers sys !! task_id) as [[]|] eqn:Hw; try done.
    injection Hstep as <-. simpl. destruct (decide (t = task_id)) as [->|Hne].
    + destruct (finish_write_own task_id outcome (table sys)) as (r' & -> & Hst).
      intros [= <-]. rewrite lookup_insert_eq.
      split; [|done]. destruct Hst as [-> | ->]; set_solver.
    + rewrite finish_write_other, lookup_insert_ne by done. apply Hinv.
  - injection Hstep as <-. apply Hinv.
  - injection Hstep as <-. simpl. intros Hr.
    apply lookup_delete_Some in Hr as [_ Hr]. by apply Hinv.
Qed.

Lemma sys_inv_run ls sys sys' :
  sys_inv sys -> sys_run ls sys = Some sys' -> sys_inv sys'.
Proof.
  revert sys. induction ls as [|l ls IH]; intros sys Hinv; simpl.
  - by intros [= <-].
  - destruct (sys_step l sys) as [sys1|] eqn:Hstep; [|done].
    eauto using sys_inv_step.
Qed.

(** Once a worker is done, no step but the cleanup of its task changes
    the record stored under its id. *)
Lemma step_after_done l sys sys' task_id :
  workers sys !! task_id = Some Done -> sys_step l sys = Some sys' ->
  workers sys' !! task_id = Some Done
  ∧ (table sys' !! task_id = table sys !! task_id
     ∨ l = Cleanup task_id ∧ table sys' !! task_id = None).
Proof.
  intros Hdone Hstep.
  destruct l as [t|t info|t outcome|t|t]; simpl in Hstep.
  - destruct (workers sys !! t) eqn:Hw; [done|]. injection Hstep as <-.
    assert (task_id ≠ t) by congruence. simpl.
    rewrite !lookup_insert_ne by done. auto.
  - destruct (workers sys !! t) as [[]|] eqn:Hw; try done.
    injection Hstep as <-. assert (task_id ≠ t) by congruence. simpl.
    rewrite progress_callback_other by done. auto.
  - destruct (workers sys !! t) as [[]|] eqn:Hw; try done.
    injection Hstep as <-. assert (task_id ≠ t) by congruence. simpl.
    rewrite finish_write_other, lookup_insert_ne by done. auto.
  - injection Hstep as <-. auto.
  - injection Hstep as <-. simpl. split; [done|].
    destruct (decide (task_id = t)) as [->|Hne].
    + right. by rewrite lookup_delete_eq.
    + left. by rewrite lookup_delete_ne.
Qed.

Lemma run_after_done ls sys sys' task_id r :
  workers sys !! task_id = Some Done -> sys_run ls sys = Some sys' ->
  (table sys !! task_id = Some r ->
     table sys' !! task_id = Some r
     ∨ Cleanup task_id ∈ ls ∧ table sys' !! task_id = None)
  ∧ (table sys !! task_id = None -> table sys' !! task_id = None).
Proof.
  revert sys. induction ls as [|l ls IH]; intros sys Hdone; simpl.
  - intros [= <-]. auto.
  - destruct (sys_step l sys) as [sys1|] eqn:Hstep; [|done]. intros Hrun.
    destruct (step_after_done _ _ _ _ Hdone Hstep) as [Hdone1 Hrec].
    destruct (IH _ Hdone1 Hrun) as [IHsome IHnone]. split.
    + intros Hr. destruct Hrec as [Hrec|[-> Hrec]].
      * rewrite Hrec in IHsome. destruct (IHsome Hr) as [?|[? ?]]; [by left|].
        right. split; [by right|done].
      * right. split; [by left|auto].
    + intros Hr. destruct Hrec as [Hrec|[-> Hrec]]; [|auto].
      apply IHnone. by rewrite Hrec.
Qed.

(** C8.  In every run of the system, once the record of a task has a
    terminal status (['completed'] or ['error']), no step changes it:
    a callback, a worker's launch or last write, a read and the cleanup
    of another task leave it as it is, and the cleanup of the task
    removes it; after any further steps the table holds the same record
    under the id, or none, the latter only after a cleanup of the task. *)
Theorem terminal_record_frozen ls sys task_id r :
  sys_run ls initial_system = Some sys ->
  table sys !! task_id = Some r ->
  terminal r = true ->
  (∀ l sys', sys_step l sys = Some sys' ->
     table sys' !! task_id = Some r
     ∨ l = Cleanup task_id ∧ table sys' !! task_id = None)
  ∧ (∀ ls' sys', sys_run ls' sys = Some sys' ->
       table sys' !! task_id = Some r
       ∨ Cleanup task_id ∈ ls' ∧ table sys' !! task_id = None).
Proof.
  intros Hrun Hr Hterm.
  pose proof (sys_inv_run _ _ _ sys_inv_initial Hrun) as Hinv.
  destruct (Hinv _ _ Hr) as [_ Hdone]. specialize (Hdone Hterm). split.
  - intros l sys' Hstep.
    destruct (step_after_done _ _ _ _ Hdone Hstep) as [_ [Heq|Hdel]]; [|by right].
    left. by rewrite Heq.
  - intros ls' sys' Hrun'.
    by destruct (run_after_done _ _ _ _ r Hdone Hrun') as [Hsome _]; auto.
Qed.
End SystemFacts.

Section NotifierClaims.
Context `{PyNum}.

Implicit Types (task_id : pystr) (polls later : list store)
  (last : option progress_record).

(** C5.  A task id that the table does not hold reads as the synthesized
    ['not_found'] record; a subscription that finds it absent at its
    first poll emits that one event and ends, whatever the table does
    afterwards; and no run of the system ever stores a record whose
    status is ['not_found']. *)
Theorem absent_task_not_found task_id :
  (∀ s : store, s !! task_id = None ->
     current_progress task_id s
     = {| status := lit "not_found"; percentage := num_of_Z 0;
          message := lit "Tarea no encontrada"; filename := None;
          download_url := None |})
  ∧ (∀ (first : store) later, first !! task_id = None ->
       get_progress task_id (first :: later)
       = ([current_progress task_id first], true))
  ∧ (∀ ls sys, sys_run ls initial_system = Some sys ->
       ∀ t r, table sys !! t = Some r -> status r ≠ lit "not_found").
Proof.
  split_and!.
  - intros s Hs. unfold current_progress. by rewrite Hs.
  - intros first later Hs. unfold get_progress. rewrite generate_step.
    unfold current_progress. rewrite Hs. reflexivity.
  - intros ls sys Hrun t r Hr Hst.
    destruct (sys_inv_run _ _ _ sys_inv_initial Hrun _ _ Hr) as [Hin _].
    rewrite Hst in Hin. unfold stored_statuses in Hin.
    repeat (apply elem_of_cons in Hin as [Hin|Hin]; [discriminate Hin|]).
    by apply elem_of_nil in Hin.
Qed.

Lemma generate_last_stops task_id (prev : option progress_record) polls :
  (∀ r, prev = Some r -> stops_stream r = false) ->
  (generate task_id prev polls).2 = true ->
  ∃ r, last (generate task_id prev polls).1 = Some r ∧ stops_stream r = true.
Proof.
  revert prev. induction polls as [|dp later IH]; intros prev Hprev; [done|].
  rewrite generate_step.
  destruct (stops_stream (current_progress task_id dp)) eqn:Hstop;
    case_decide as Heq; simpl.
  - rewrite (Hprev _ (eq_sym Heq)) in Hstop. done.
  - eauto.
  - by apply IH.
  - intros Hstopped.
    destruct (IH (Some (current_progress task_id dp))) as (r & Hlast & Hr);
      [by intros r [= <-]|done|].
    exists r. split; [|done].
    destruct (generate task_id _ later).1; [done|]. done.
Qed.

Lemma generate_init_continues task_id (prev : option progress_record) polls i r :
  (generate task_id prev polls).1 !! i = Some r ->
  S i < length (generate task_id prev polls).1 ->
  stops_stream r = false.
Proof.
  revert prev i. induction polls as [|dp later IH]; intros prev i; [done|].
  rewrite generate_step.
  destruct (stops_stream (current_progress task_id dp)) eqn:Hstop;
    case_decide as Heq; simpl.
  - done.
  - destruct i; simpl; [lia|done].
  - apply IH.
  - destruct i as [|i]; simpl.
    + by intros [= <-].
    + intros Hr Hlen. eapply IH; [exact Hr|lia].
Qed.

(** C6.  The events of a subscription are the records read at the
    successive polls, in that order, up to the first whose status is
    ['completed'], ['error'] or ['not_found'], without repeats; the
    stream ends exactly when such a record has been read, and then that
    record is the last event and the only one with such a status; the
    first poll always yields an event, the record read there. *)
Theorem notifier_stream_order_and_end task_id polls :
  let reads := map (current_progress task_id) polls in
  let events := (get_progress task_id polls).1 in
  let stopped := (get_progress task_id polls).2 in
  events = spec_events task_id polls
  ∧ sublist events reads
  ∧ (stopped = true <-> Exists (fun r => stops_stream r = true) reads)
  ∧ (stopped = true ->
       ∃ r, last events = Some r ∧ stops_stream r = true)
  ∧ (∀ i r, events !! i = Some r -> S i < length events ->
       stops_stream r = false)
  ∧ (∀ (first : store) later, polls = first :: later ->
       ∃ more, events = current_progress task_id first :: more).
Proof.
  intros reads events stopped. subst reads events stopped.
  unfold get_progress. split_and!.
  - apply generate_spec.
  - rewrite generate_spec.
    etrans; [apply suppress_repeats_sublist|apply upto_stop_sublist].
  - rewrite generate_stops, bool_decide_eq_true, Exists_fmap. done.
  - apply generate_last_stops. done.
  - apply generate_init_continues.
  - intros first later ->. rewrite generate_step.
    rewrite decide_False by done.
    destruct (stops_stream _); eauto.
Qed.

(** C7.  An iteration emits the record it has read exactly when that
    record differs from the one emitted last (as values: status,
    percentage, message, file name and URL); so a poll that reads the
    record just emitted emits nothing, and no two consecutive events of
    a subscription are equal. *)
Theorem notifier_suppresses_repeats task_id :
  (∀ prev dp later,
     let current := current_progress task_id dp in
     (generate task_id prev (dp :: later)).1
     = (if decide (Some current = prev) then [] else [current])
       ++ (if stops_stream current then []
           else (generate task_id
                   (if decide (Some current = prev) then prev else Some current)
                   later).1))
  ∧ (∀ dp dp' later,
       current_progress task_id dp' = current_progress task_id dp ->
       stops_stream (current_progress task_id dp) = false ->
       (get_progress task_id (dp :: dp' :: later)).1
       = (get_progress task_id (dp :: later)).1)
  ∧ (∀ polls i a b,
       (get_progress task_id polls).1 !! i = Some a ->
       (get_progress task_id polls).1 !! S i = Some b ->
       a ≠ b).
Proof.
  split_and!.
  - intros prev dp later current. rewrite generate_step. fold current.
    case_decide; destruct (stops_stream current); simpl; done.
  - intros dp dp' later Heq Hgo. unfold get_progress.
    rewrite !generate_step, Heq, Hgo.
    rewrite decide_False by done. by rewrite decide_True.
  - intros polls i a b. apply no_repeat_adjacent with None.
    apply generate_no_repeat.
Qed.
End NotifierClaims.

Section WorkerAsSteps.
Context `{PyNum}.

Implicit Types (s : store) (task_id url format_choice : pystr).

(** Whatever yt-dlp reports, what its hooks do to the table is a
    sequence of callbacks. *)
Lemma extract_events_callbacks task_id (events : list progress_dict) s :
  ∃ infos,
    (extract_events [hook (Some (progress_callback task_id))] events s).1
    = after_callbacks task_id infos s.
Proof.
  revert s. induction events as [|d events IH]; intros s.
  { by exists []. }
  cbn [extract_events call_hooks]. unfold mbind, M_bind, bind, mret, M_ret, ret.
  destruct (hook_cases (progress_callback task_id) d s)
    as [-> | [[m ->] | [ev ->]]].
  - apply IH.
  - by exists [].
  - destruct (progress_callback task_id ev s) as [s1 [e|[]]] eqn:Hcb.
    + exists [ev]. simpl. by rewrite Hcb.
    + destruct (IH s1) as [infos Hinfos]. exists (ev :: infos).
      simpl. by rewrite Hcb.
Qed.

Lemma download_media_callbacks engine download_path task_id url format_choice s :
  ∃ infos,
    (download_media engine download_path url format_choice
       (Some (progress_callback task_id)) s).1
    = after_callbacks task_id infos s.
Proof.
  destruct (extract_events_callbacks task_id
              (run_events (engine url format_choice)) s) as [infos Hinfos].
  exists infos. rewrite <- Hinfos.
  unfold download_media, extract_info, try_except, mbind, M_bind, bind.
  destruct (extract_events _ _ s) as [s1 [e|[]]]; simpl.
  - by case_decide.
  - destruct (run_outcome _); simpl; try done. unfold raise. by case_decide.
Qed.

Lemma sys_run_app ls1 ls2 (sys : system) :
  sys_run (ls1 ++ ls2) sys = sys_run ls1 sys ≫= sys_run ls2.
Proof.
  revert sys. induction ls1 as [|l ls1 IH]; intros sys; simpl; [done|].
  destruct (sys_step l sys); [apply IH|done].
Qed.

Lemma sys_run_callbacks task_id infos (sys : system) :
  workers sys !! task_id = Some Fetching ->
  sys_run (Callback task_id <$> infos) sys
  = Some {| table := after_callbacks task_id infos (table sys);
            workers := workers sys |}.
Proof.
  revert sys. induction infos as [|info infos IH]; intros sys Hw; simpl.
  - by destruct sys.
  - rewrite Hw. by rewrite IH.
Qed.

(** The worker of the application is one run of the steps above: its
    launch, callbacks, and its last write. *)
Lemma download_worker_is_a_run engine task_id url format_choice (sys : system) :
  workers sys !! task_id = None ->
  ∃ infos outcome,
    sys_run (Launch task_id :: (Callback task_id <$> infos)
             ++ [Finish task_id outcome]) sys
    = Some {| table := (download_worker engine task_id url format_choice
                          (table sys)).1;
              workers := <[task_id := Done]> (workers sys) |}.
Proof.
  intros Hw. unfold download_worker. rewrite download_worker_with_eq.
  destruct (download_media_callbacks engine (lit "static/downloads") task_id
              url format_choice (<[task_id := connecting_record]> (table sys)))
    as [infos Hinfos].
  destruct (download_media _ _ _ _ _ _) as [s1 outcome]. simpl in *.
  exists infos, outcome. rewrite Hw. rewrite sys_run_app, sys_run_callbacks.
  - simpl. rewrite lookup_insert_eq. simpl. rewrite insert_insert_eq.
    by rewrite Hinfos.
  - simpl. apply lookup_insert_eq.
Qed.
End WorkerAsSteps.

Section SanitizeFacts.
Variable unicode_alnum : N -> bool.

Lemma lstrip_sublist (s : pystr) : sublist (lstrip s) s.
Proof.
  induction s as [|c s IH]; simpl; [constructor|].
  destruct (isspace c); [by apply sublist_cons|done].
Qed.

Lemma rstrip_sublist (s : pystr) : sublist (rstrip s) s.
Proof.
  induction s as [|c s IH]; simpl; [constructor|].
  destruct (rstrip s) as [|c' tl].
  - destruct (isspace c); [apply sublist_nil_l|].
    apply sublist_skip, sublist_nil_l.
  - by apply sublist_skip.
Qed.

Lemma strip_sublist (s : pystr) : sublist (strip s) s.
Proof. unfold strip. etrans; [apply rstrip_sublist|apply lstrip_sublist]. Qed.

Lemma safe_title_sublist (title : pystr) :
  sublist (safe_title unicode_alnum title)
          (filter (fun c => kept unicode_alnum c = true) title).
Proof.
  unfold safe_title. etrans; [apply sublist_take|apply strip_sublist].
Qed.

Context `{PyNum}.

(** C3, as the code has it.  The name sent with the streamed file is the
    title reduced to its alphanumeric characters, spaces, hyphens and
    underscores, stripped of surrounding whitespace, cut to 100
    characters, then ['.mp3'] for a selector that starts with ['audio_']
    and ['.mp4'] for any other; it coincides with the specification's
    wording when stripping changes nothing; the title
    ["A/B: Test*File??"] gives ["AB TestFile"]; and the name the worker's
    [download_media] reports is the base name of the path yt-dlp
    prepared, not a name made by this rule. *)
Theorem download_filename_shape (title format_choice : pystr) :
  let stem := safe_title unicode_alnum title in
  let allowed := filter (fun c => kept unicode_alnum c = true) title in
  download_filename unicode_alnum title format_choice
  = stem ++ (if startswith (lit "audio_") format_choice
             then lit ".mp3" else lit ".mp4")
  ∧ stem = take 100 (strip allowed)
  ∧ Forall (fun c => isalnum unicode_alnum c = true
                     ∨ c = 32%N ∨ c = 45%N ∨ c = 95%N) stem
  ∧ length stem <= 100
  ∧ sublist stem title
  ∧ (strip allowed = allowed ->
       download_filename unicode_alnum title format_choice
       = spec_filename unicode_alnum title format_choice)
  ∧ safe_title unicode_alnum (lit "A/B: Test*File??") = lit "AB TestFile"
  ∧ (∀ St engine download_path url (cb : option (progress_info -> M St unit))
       (st st' : St) name path t,
       download_media engine download_path url format_choice cb st
       = (st', inr (DMSuccess name path t)) ->
       ∃ prepared t', run_outcome (engine url format_choice) = Info prepared t'
         ∧ name = basename (actual_filename format_choice prepared)).
Proof.
  intros stem allowed. subst stem allowed. split_and!.
  - reflexivity.
  - reflexivity.
  - apply list.Forall_forall. intros c Hc.
    eapply elem_of_sublist in Hc; [|apply safe_title_sublist].
    apply list_elem_of_filter in Hc as [Hc _]. unfold kept in Hc.
    repeat (apply orb_true_iff in Hc as [Hc|Hc]);
      rewrite ?N.eqb_eq in Hc; auto.
  - unfold safe_title. rewrite length_take. lia.
  - etrans; [apply safe_title_sublist|apply sublist_filter].
  - intros Hid. unfold download_filename, spec_filename, safe_title.
    by rewrite Hid.
  - reflexivity.
  - intros. by eapply download_media_success_name.
Qed.
End SanitizeFacts.

(** C3 as stated fails on its own example: whatever the Unicode table,
    ["A/B: Test*File??"] is sanitized to ["AB TestFile"] (the ['*'] is
    dropped, not turned into a space), which is not ["AB Test File"]. *)
Lemma sanitize_example_is_not_as_stated :
  (fun unicode_alnum => safe_title unicode_alnum (lit "A/B: Test*File??"))
  = (fun _ => lit "AB TestFile")
  ∧ lit "AB TestFile" ≠ lit "AB Test File".
Proof. split; [reflexivity|discriminate]. Qed.

(** The specification's wording also omits the [strip]: a title that
    starts with a blank keeps it there and loses it in the code. *)
Example spec_filename_keeps_blank :
  spec_filename (fun _ => false) (lit " a") (lit "video_best") = lit " a.mp4"
  ∧ download_filename (fun _ => false) (lit " a") (lit "video_best") = lit "a.mp4".
Proof. split; reflexivity. Qed.

Section StreamFacts.

Implicit Types (disk : fs) (dir p : pystr) (env : stream_env)
  (patience : option nat).

Lemma chunk_size_pos : 0 < chunk_size.
Proof. unfold chunk_size. lia. Qed.

Lemma fs_lookup_rmtree dir disk p :
  p = dir ∨ is_under dir p = true -> fs_lookup p (rmtree dir disk) = None.
Proof.
  intros Hp. unfold fs_lookup, rmtree.
  induction disk as [|[q n] disk IH]; [done|].
  rewrite filter_cons. case_decide as Hq; [|exact IH].
  simpl in *. rewrite bool_decide_eq_false_2; [exact IH|].
  intros ->. destruct Hq as [Hne Hunder]. destruct Hp; congruence.
Qed.

Lemma path_exists_rmtree dir disk p :
  p = dir ∨ is_under dir p = true -> path_exists p (rmtree dir disk) = false.
Proof.
  intros Hp. unfold path_exists. rewrite fs_lookup_rmtree by done.
  apply bool_decide_eq_false_2. by intros [? ?].
Qed.

Lemma startswith_longer (p q : pystr) c : startswith (p ++ c :: q) p = false.
Proof.
  induction p as [|a p IH]; simpl; [done|]. by rewrite IH, andb_false_r.
Qed.

(** A removal that fails does not take the directory itself away. *)
Lemma fs_lookup_rmtree_partly dir removed disk :
  fs_lookup dir (rmtree_partly dir removed disk) = fs_lookup dir disk.
Proof.
  unfold fs_lookup, rmtree_partly. f_equal.
  induction disk as [|[q n] disk IH]; [done|].
  rewrite filter_cons. simpl. case_decide as Hq.
  - simpl. by rewrite IH.
  - rewrite bool_decide_eq_false_2; [done|].
    intros ->. destruct Hq as [Hunder _].
    unfold is_under in Hunder. change (lit "/") with [47%N] in Hunder.
    by rewrite startswith_longer in Hunder.
Qed.

Lemma path_exists_rmtree_partly dir removed disk :
  path_exists dir (rmtree_partly dir removed disk) = path_exists dir disk.
Proof. unfold path_exists. by rewrite fs_lookup_rmtree_partly. Qed.

Lemma chunks_of_concat fuel (data : list byte) :
  length data <= fuel -> concat (chunks_of fuel data) = data.
Proof.
  revert data. induction fuel as [|fuel IH]; intros data Hlen.
  - destruct data; [done|simpl in Hlen; lia].
  - destruct data as [|b data]; [done|].
    cbn [chunks_of concat]. rewrite IH, take_drop; [done|].
    rewrite length_drop. rewrite length_cons in *. pose proof chunk_size_pos. lia.
Qed.

Lemma file_chunks_concat (data : list byte) : concat (file_chunks data) = data.
Proof. by apply chunks_of_concat. Qed.

(** Every chunk is non-empty and at most 8192 bytes long. *)
Lemma chunks_of_bounded fuel (data : list byte) :
  Forall (fun c => 0 < length c <= chunk_size) (chunks_of fuel data).
Proof.
  revert data. induction fuel as [|fuel IH]; intros data; [constructor|].
  destruct data as [|b data]; [constructor|].
  cbn [chunks_of]. constructor; [|apply IH].
  rewrite length_take, length_cons. pose proof chunk_size_pos. lia.
Qed.

(** A consumer that iterates to the end of a stream without read faults
    receives every chunk. *)
Lemma stream_file_all faults i (pending : list (list byte)) :
  (∀ j, faults j = None) ->
  stream_file faults i None pending = (pending, Exhausted).
Proof.
  intros Hok. revert i. induction pending as [|c rest IH]; intros i; simpl.
  - by rewrite Hok.
  - by rewrite Hok, IH.
Qed.

(** Whatever the consumer and the faults, what is yielded is a prefix of
    the chunks of the file. *)
Lemma stream_file_prefix faults i patience (pending : list (list byte)) :
  (stream_file faults i patience pending).1 `prefix_of` pending.
Proof.
  revert i patience. induction pending as [|c rest IH]; intros i patience; simpl.
  - destruct (faults i); apply prefix_nil.
  - destruct (faults i); [apply prefix_nil|].
    destruct patience as [[|n]|]; simpl.
    + apply prefix_cons, prefix_nil.
    + specialize (IH (S i) (Some n)).
      destruct (stream_file _ _ _ rest). by apply prefix_cons.
    + specialize (IH (S i) None).
      destruct (stream_file _ _ _ rest). by apply prefix_cons.
Qed.

(** C1, as the code has it.  However the generator ends (exhaustion,
    [close()] by the consumer, a fault of the fetch, of [open] or of a
    read), it ends that way only after [shutil.rmtree(temp_dir)] has
    been tried: when the removal succeeds, neither the temporary
    directory nor anything below it exists afterwards; when the removal
    itself fails, the failure is printed and swallowed, the directory
    is where the fetch left it, and the generator still ends as it
    would have. *)
Theorem stream_download_cleanup env format_choice patience disk :
  let run := stream_download env format_choice patience disk in
  let body := stream_body env format_choice patience
                (disk ++ [(tmp_name env, Dir)]) in
  chunks run = body.2.1 ∧ ending run = body.2.2
  ∧ (rmtree_fault env = None ->
       final_disk run = rmtree (tmp_name env) body.1
       ∧ ∀ p, p = tmp_name env ∨ is_under (tmp_name env) p = true ->
              path_exists p (final_disk run) = false)
  ∧ (∀ err removed, rmtree_fault env = Some (err, removed) ->
       final_disk run = rmtree_partly (tmp_name env) removed body.1
       ∧ path_exists (tmp_name env) (final_disk run)
         = path_exists (tmp_name env) body.1
       ∧ last (printed run)
         = Some (lit "Error cleaning up temp dir: " ++ exn_str err)).
Proof.
  intros run body. subst run body. unfold stream_download.
  destruct (stream_body _ _ _ _) as [disk2 [yielded e]]. simpl.
  destruct (rmtree_fault env) as [[err removed]|]; simpl; split_and!; try done.
  - intros err' removed' [= <- <-]. split_and!; [done| |by rewrite last_snoc].
    apply path_exists_rmtree_partly.
  - intros _. split; [done|]. apply path_exists_rmtree.
Qed.

End StreamFacts.


(** C1 as stated fails when the removal fails: the generator of this
    run is exhausted normally, the error of [rmtree] is printed, and the
    temporary directory and the fetched file are still on the disk. *)
Lemma cleanup_can_leave_directory :
  let run := stream_download (demo_env true) (lit "video_best") None [] in
  ending run = Exhausted
  ∧ chunks run = [demo_file]
  ∧ path_exists demo_tmp (final_disk run) = true
  ∧ path_exists (demo_tmp ++ lit "/clip.mp4") (final_disk run) = true.
Proof. repeat split. Qed.

(* ===================================================================== *)
(** * The concrete runs, evaluated *)
(* ===================================================================== *)

Example round_42_37 :
  Double.round1 (4237 / 100) = (424 / 10)%float
  ∧ Double.str (Double.round1 (4237 / 100)) = lit "42.4".
Proof. split; reflexivity. Qed.

Example hook_on_demo_dict :
  let known := demo_dict (Some (PyNumber (Double.of_Z 10000))) in
  pi_percentage <$> forwarded known = [(4237 / 10000 * 100)%float]
  ∧ hook_result known = inr tt
  ∧ forwarded (demo_dict None) = []
  ∧ forwarded (demo_dict (Some (PyNumber (Double.of_Z 0)))) = [].
Proof. repeat split. Qed.

(** A subscriber that polls after each step of the scenario sees the
    four records of the specification, then the stream ends. *)
Example scenario_events :
  get_progress demo_task (table <$> sys_trace demo_labels initial_system)
  = ([ {| status := lit "downloading"; percentage := 0%float;
          message := lit "Conectando..."; filename := None;
          download_url := None |};
       {| status := lit "downloading"; percentage := (424 / 10)%float;
          message := lit "Descargando... 42.4%"; filename := None;
          download_url := None |};
       {| status := lit "processing"; percentage := (424 / 10)%float;
          message := lit "Procesando archivo..."; filename := None;
          download_url := None |};
       {| status := lit "completed"; percentage := 100%float;
          message := lit "Descarga completada";
          filename := Some (lit "My Song.mp3");
          download_url := Some (lit "/downloads/My Song.mp3") |} ],
     true).
Proof. compute_done. Qed.

(** A poll that finds the table unchanged emits nothing. *)
Example scenario_repeated_poll :
  (get_progress demo_task
     [ {[demo_task := connecting_record]}; {[demo_task := connecting_record]};
       {[demo_task := connecting_record]} ]).1
  = [connecting_record].
Proof. compute_done. Qed.

(** C8 on the scenario: after the worker has stored ['completed'] for
    ["My Song.mp3"], every further step leaves that record or, being the
    cleanup of the task, removes it. *)
Lemma terminal_record_frozen_holds :
  (∀ l sys', sys_step l demo_system = Some sys' ->
     table sys' !! demo_task = Some (completed_record (lit "My Song.mp3"))
     ∨ l = Cleanup demo_task ∧ table sys' !! demo_task = None)
  ∧ (∀ ls' sys', sys_run ls' demo_system = Some sys' ->
       table sys' !! demo_task = Some (completed_record (lit "My Song.mp3"))
       ∨ Cleanup demo_task ∈ ls' ∧ table sys' !! demo_task = None).
Proof.
  apply (terminal_record_frozen demo_labels demo_system demo_task
           (completed_record (lit "My Song.mp3")));
    compute_done.
Defined.

(** ** The ways [stream_download] ends *)

Example ends_exhausted :
  let run := stream_download (long_env (fun _ => None)) (lit "video_best") None [] in
  (N.of_nat ∘ length) <$> chunks run = [8192; 8192; 3616]%N
  ∧ ending run = Exhausted ∧ final_disk run = [].
Proof. vm_compute. repeat split. Qed.

Example ends_closed :
  let run := stream_download (long_env (fun _ => None)) (lit "video_best")
               (Some 1) [] in
  (N.of_nat ∘ length) <$> chunks run = [8192; 8192]%N
  ∧ ending run = Closed ∧ final_disk run = [].
Proof. vm_compute. repeat split. Qed.

Example ends_on_read_fault :
  let e := Exn OSError (lit "[Errno 5] Input/output error") in
  let run := stream_download
               (long_env (fun i => if decide (i = 1) then Some e else None))
               (lit "video_best") None [] in
  (N.of_nat ∘ length) <$> chunks run = [8192]%N
  ∧ ending run = Faulted e ∧ final_disk run = [].
Proof. vm_compute. repeat split. Qed.

Example ends_on_fetch_fault :
  let run := stream_download failing_env (lit "video_best") None [] in
  chunks run = []
  ∧ ending run = Faulted (Exn DownloadError (lit "ERROR: unable to download"))
  ∧ final_disk run = [].
Proof. vm_compute. repeat split. Qed.

(* ===================================================================== *)
(** * More properties: the formats offered *)
(* ===================================================================== *)

Section FormatFacts.

Implicit Types (formats : list yt_format) (vfs : list video_format)
  (seen : gset Z) (options : list format_option) (h : Z).

Lemma collect_heights formats vfs :
  collect_video_formats formats = inr vfs ->
  map vf_height vfs = eligible_heights formats.
Proof.
  revert vfs. induction formats as [|f rest IH]; intros vfs; simpl.
  - by intros [= <-].
  - unfold eligible_heights. simpl. destruct (eligible f) eqn:Hel.
    + destruct (f_format_id f) as [fid|]; [|done].
      destruct (collect_video_formats rest) as [e|vfs']; [done|].
      intros [= <-]. unfold eligible in Hel.
      destruct (f_height f) as [h0|]; [|by rewrite andb_false_r in Hel].
      simpl. f_equal. by apply IH.
    + apply IH.
Qed.

Lemma collect_raises formats :
  (∃ e, collect_video_formats formats = inl e)
  <-> ∃ f, f ∈ formats ∧ eligible f = true ∧ f_format_id f = None.
Proof.
  induction formats as [|f rest IH]; simpl.
  - split; [by intros [e ?]|]. intros (f & Hin & _). by apply elem_of_nil in Hin.
  - destruct (eligible f) eqn:Hel.
    + destruct (f_format_id f) as [fid|] eqn:Hid.
      * destruct (collect_video_formats rest) as [e|vfs'].
        -- split; [intros _|eauto]. destruct (proj1 IH) as (f' & ? & ? & ?); [eauto|].
           exists f'. split; [by right|done].
        -- split; [by intros [e ?]|]. intros (f' & Hin & Hel' & Hid').
           apply elem_of_cons in Hin as [->|Hin]; [congruence|].
           destruct (proj2 IH) as [e He]; [eauto|done].
      * split; [intros _|eauto]. exists f. split; [by left|done].
    + rewrite IH. split.
      * intros (f' & ? & ? & ?). exists f'. split; [by right|done].
      * intros (f' & Hin & Hel' & Hid').
        apply elem_of_cons in Hin as [->|Hin]; [congruence|eauto].
Qed.

Lemma collect_raises_key_error formats e :
  collect_video_formats formats = inl e -> e = key_error (lit "format_id").
Proof.
  induction formats as [|f rest IH]; simpl; [done|].
  destruct (eligible f); [|done].
  destruct (f_format_id f); [|by intros [= <-]].
  destruct (collect_video_formats rest); [|done]. intros [= <-]. by apply IH.
Qed.

(** Sorting keeps the entries and puts the heights in descending order. *)
Lemma insert_by_height_elem x sorted (y : video_format) :
  y ∈ insert_by_height x sorted <-> y = x ∨ y ∈ sorted.
Proof.
  induction sorted as [|z sorted IH]; simpl.
  - rewrite list_elem_of_singleton, elem_of_nil. tauto.
  - destruct (vf_height z <=? vf_height x)%Z;
      rewrite !elem_of_cons, ?IH, ?elem_of_cons; tauto.
Qed.

Lemma sort_by_height_elem vfs (y : video_format) :
  y ∈ sort_by_height vfs <-> y ∈ vfs.
Proof.
  induction vfs as [|x vfs IH]; simpl; [done|].
  rewrite insert_by_height_elem, IH, elem_of_cons. tauto.
Qed.

Lemma insert_by_height_descending x sorted :
  descending sorted -> descending (insert_by_height x sorted).
Proof.
  unfold descending. induction sorted as [|z sorted IH]; intros Hs; simpl.
  - by repeat constructor.
  - apply StronglySorted_inv in Hs as [Hs Hz].
    destruct (vf_height z <=? vf_height x)%Z eqn:Hle.
    + constructor; [by constructor|]. apply Z.leb_le in Hle.
      constructor; [done|]. eapply Forall_impl; [exact Hz|].
      intros a Ha. simpl in Ha. lia.
    + constructor; [by apply IH|]. apply Z.leb_gt in Hle.
      apply list.Forall_forall. intros a Ha.
      apply insert_by_height_elem in Ha as [->|Ha]; [lia|].
      by eapply list.Forall_forall in Hz.
Qed.

Lemma sort_by_height_descending vfs : descending (sort_by_height vfs).
Proof.
  induction vfs as [|x vfs IH]; simpl; [constructor|].
  by apply insert_by_height_descending.
Qed.

(** The second loop offers each height once, the first time it meets it. *)
Lemma quality_options_elem seen vfs h :
  h ∈ offered_heights (quality_options seen vfs)
  ↔ ((h ∉ seen) ∧ ∃ vf, vf ∈ vfs ∧ vf_height vf = h).
Proof.
  unfold offered_heights. revert seen.
  induction vfs as [|vf rest IH]; intros seen; simpl.
  - split; [by intros ?%elem_of_nil|]. intros (_ & vf & Hin & _).
    by apply elem_of_nil in Hin.
  - case_decide as Hseen.
    + rewrite IH. split.
      * intros (Hn & vf' & ? & ?). split; [done|]. exists vf'. split; [by right|done].
      * intros (Hn & vf' & Hin & Hh). split; [done|].
        apply elem_of_cons in Hin as [->|Hin]; [congruence|eauto].
    + simpl. rewrite elem_of_cons, IH. split.
      * intros [->|(Hn & vf' & ? & ?)].
        -- split; [done|]. exists vf. split; [by left|done].
        -- split; [set_solver|]. exists vf'. split; [by right|done].
      * intros (Hn & vf' & Hin & Hh).
        destruct (decide (h = vf_height vf)) as [->|Hne]; [by left|right].
        split; [set_solver|].
        apply elem_of_cons in Hin as [->|Hin]; [congruence|eauto].
Qed.

Lemma quality_options_decreasing seen vfs :
  descending vfs ->
  (∀ s vf, s ∈ seen -> vf ∈ vfs -> (vf_height vf <= s)%Z) ->
  StronglySorted (fun a b => (b < a)%Z) (offered_heights (quality_options seen vfs))
  ∧ ∀ h s, h ∈ offered_heights (quality_options seen vfs) -> s ∈ seen -> (h < s)%Z.
Proof.
  unfold descending, offered_heights. revert seen.
  induction vfs as [|vf rest IH]; intros seen Hs Hseen; simpl.
  - split; [constructor|]. by intros h s ?%elem_of_nil.
  - apply StronglySorted_inv in Hs as [Hs Hvf].
    case_decide as Hin.
    + apply IH; [done|]. intros s vf' ? ?. apply Hseen; [done|by right].
    + destruct (IH ({[vf_height vf]} ∪ seen) Hs) as [IHs IHlt].
      { intros s vf' Hs' Hvf'. apply elem_of_union in Hs' as [->%elem_of_singleton|Hs'].
        - by eapply list.Forall_forall in Hvf.
        - apply Hseen; [done|by right]. }
      simpl. split.
      * constructor; [done|]. apply list.Forall_forall. intros h Hh.
        apply (IHlt h); [done|set_solver].
      * intros h s [->|Hh]%elem_of_cons Hs'.
        -- assert (vf_height vf <= s)%Z by (apply Hseen; [done|by left]).
           assert (vf_height vf ≠ s) by congruence. lia.
        -- apply (IHlt h); [done|set_solver].
Qed.

Lemma quality_options_types seen vfs (o : format_option) :
  o ∈ quality_options seen vfs -> ∃ h, o = video_option h ∧ fo_height o = Some h.
Proof.
  revert seen. induction vfs as [|vf rest IH]; intros seen; simpl.
  - by intros ?%elem_of_nil.
  - case_decide; [apply IH|]. intros [->|Ho]%elem_of_cons; [eauto|by eapply IH].
Qed.

(** How the result of [get_available_formats] is made up. *)
Lemma get_available_formats_inv info_formats options :
  get_available_formats info_formats = inr options ->
  ∃ vfs, collect_video_formats (default [] info_formats) = inr vfs
    ∧ let quality := quality_options ∅ (sort_by_height vfs) in
      options = audio_option :: (if decide (quality = []) then [best_option]
                                 else quality).
Proof.
  unfold get_available_formats. destruct info_formats as [[|f fs]|]; simpl.
  - intros [= <-]. by exists [].
  - destruct (eligible f).
    + destruct (f_format_id f); [|done].
      destruct (collect_video_formats fs) as [e|vfs']; [done|].
      intros [= <-]. eexists. split; [done|]. simpl.
      destruct (quality_options _ _) eqn:Hq; simpl; done.
    + destruct (collect_video_formats fs) as [e|vfs']; [done|].
      intros [= <-]. eexists. split; [done|]. simpl.
      destruct (quality_options _ _) eqn:Hq; simpl; done.
  - intros [= <-]. by exists [].
Qed.

(** What makes a format eligible, in the words of the code. *)
Lemma eligible_spec (f : yt_format) h :
  (eligible f = true ∧ f_height f = Some h)
  ↔ (f_vcodec f ≠ Some (lit "none") ∧ f_height f = Some h ∧ (144 <= h)%Z).
Proof.
  unfold eligible. destruct (f_height f) as [h0|].
  - rewrite andb_true_iff, negb_true_iff, bool_decide_eq_false.
    rewrite andb_true_iff, negb_true_iff, Z.eqb_neq, Z.leb_le.
    split.
    + intros [(? & ? & ?) [= ->]]. done.
    + intros (? & [= ->] & ?). split_and!; [done|lia|done|done].
  - rewrite andb_false_r. split; [by intros [? ?]|by intros (? & ? & ?)].
Qed.

Lemma eligible_heights_elem formats h :
  h ∈ eligible_heights formats
  ↔ ∃ f, f ∈ formats ∧ f_vcodec f ≠ Some (lit "none")
         ∧ f_height f = Some h ∧ (144 <= h)%Z.
Proof.
  unfold eligible_heights. rewrite list_elem_of_omap. split.
  - intros (f & Hin & Hf). exists f. split; [done|].
    apply eligible_spec. destruct (eligible f); [done|discriminate].
  - intros (f & Hin & Hf). exists f. split; [done|].
    apply eligible_spec in Hf as [-> ->]. done.
Qed.

(** The heights offered, in terms of the formats given. *)
Lemma offered_heights_quality formats vfs h :
  collect_video_formats formats = inr vfs ->
  h ∈ offered_heights (quality_options ∅ (sort_by_height vfs))
  ↔ h ∈ eligible_heights formats.
Proof.
  intros Hc. rewrite quality_options_elem, <- (collect_heights _ _ Hc).
  rewrite list_elem_of_fmap. split.
  - intros (_ & vf & Hin & <-). exists vf. split; [done|].
    by apply sort_by_height_elem.
  - intros (vf & -> & Hin). split; [apply not_elem_of_empty|].
    exists vf. split; [by apply sort_by_height_elem|done].
Qed.

(** X1.  The list [get_available_formats] returns starts with the audio
    option, every further entry is a video option, and there is at
    least one: the option ['video_best'] stands in, alone, exactly when
    no format of the info dict is a video of height 144 or more. *)
Theorem formats_never_without_video info_formats options :
  get_available_formats info_formats = inr options ->
  head options = Some audio_option
  ∧ 2 <= length options
  ∧ Forall (fun o => fo_type o = lit "video") (tail options)
  ∧ (options = [audio_option; best_option]
     ↔ Forall (fun f => eligible f = false) (default [] info_formats))
  ∧ (best_option ∈ options -> options = [audio_option; best_option]).
Proof.
  intros Hget.
  destruct (get_available_formats_inv _ _ Hget) as (vfs & Hc & ->).
  set (quality := quality_options ∅ (sort_by_height vfs)).
  assert (Hempty : quality = []
            ↔ Forall (fun f => eligible f = false) (default [] info_formats)).
  { split.
    - intros Hq. apply list.Forall_forall. intros f Hf.
      destruct (eligible f) eqn:Hel; [exfalso|done].
      unfold eligible in Hel. destruct (f_height f) as [h|] eqn:Hh;
        [|by rewrite andb_false_r in Hel].
      assert (Hin : h ∈ eligible_heights (default [] info_formats)).
      { unfold eligible_heights. apply list_elem_of_omap. exists f.
        split; [done|]. unfold eligible. by rewrite Hh, Hel. }
      apply (offered_heights_quality _ _ _ Hc) in Hin. fold quality in Hin.
      rewrite Hq in Hin. by apply elem_of_nil in Hin.
    - intros Hall. destruct quality as [|o rest] eqn:Hq; [done|exfalso].
      destruct (quality_options_types ∅ (sort_by_height vfs) o) as (h & _ & Hh).
      { fold quality. rewrite Hq. by left. }
      assert (Hin : h ∈ offered_heights quality).
      { unfold offered_heights. apply list_elem_of_omap. exists o.
        split; [rewrite Hq; by left|done]. }
      apply (offered_heights_quality _ _ _ Hc) in Hin.
      unfold eligible_heights in Hin. apply list_elem_of_omap in Hin as (f & Hf & Hel).
      eapply list.Forall_forall in Hall; [|exact Hf]. by rewrite Hall in Hel. }
  assert (Hvideo : Forall (fun o => fo_type o = lit "video") quality).
  { apply list.Forall_forall. intros o Ho.
    by destruct (quality_options_types _ _ _ Ho) as (h & -> & _). }
  assert (Hnobest : best_option ∉ quality).
  { intros Ho. by destruct (quality_options_types _ _ _ Ho) as (h & _ & ?). }
  simpl. destruct (decide (quality = [])) as [Hq|Hq]; simpl.
  - split_and!; [done|lia|by repeat constructor| |done].
    rewrite <- Hempty. done.
  - split_and!; [done| |done| |].
    + destruct quality; [done|simpl; lia].
    + rewrite <- Hempty. split; [|done].
      intros [= Hq']. rewrite Hq' in Hnobest. exfalso. apply Hnobest. by left.
    + intros [?|?]%elem_of_cons; done.
Qed.

(** X2.  The video options come in strictly decreasing height: best
    quality first, and no height twice. *)
Theorem formats_strictly_decreasing info_formats options :
  get_available_formats info_formats = inr options ->
  StronglySorted (fun a b => (b < a)%Z) (offered_heights options).
Proof.
  intros Hget.
  destruct (get_available_formats_inv _ _ Hget) as (vfs & Hc & ->).
  simpl. case_decide as Hq; [constructor|].
  change (offered_heights (audio_option :: ?q)) with (offered_heights q).
  apply quality_options_decreasing; [apply sort_by_height_descending|].
  intros s vf Hs. by apply not_elem_of_empty in Hs.
Qed.

(** X3.  A height is offered exactly when the info dict has a format
    with that height, at least 144, whose video codec is not ['none']. *)
Theorem formats_sound_and_complete info_formats options h :
  get_available_formats info_formats = inr options ->
  h ∈ offered_heights options
  ↔ ∃ f, f ∈ default [] info_formats ∧ f_vcodec f ≠ Some (lit "none")
         ∧ f_height f = Some h ∧ (144 <= h)%Z.
Proof.
  intros Hget.
  destruct (get_available_formats_inv _ _ Hget) as (vfs & Hc & ->).
  rewrite <- eligible_heights_elem, <- (offered_heights_quality _ _ _ Hc).
  simpl. case_decide as Hq; [|done]. rewrite Hq. done.
Qed.

(** The listing fails exactly as the collection of its video formats. *)
Lemma get_available_formats_shape info_formats :
  match collect_video_formats (default [] info_formats) with
  | inl e => get_available_formats info_formats = inl e
  | inr _ => ∃ options, get_available_formats info_formats = inr options
  end.
Proof.
  unfold get_available_formats.
  destruct info_formats as [[|f fs]|]; simpl; eauto.
  destruct (eligible f).
  - destruct (f_format_id f); [|done].
    destruct (collect_video_formats fs); [done|eauto].
  - destruct (collect_video_formats fs); [done|eauto].
Qed.

Lemma get_available_formats_raises info_formats f :
  f ∈ default [] info_formats -> eligible f = true -> f_format_id f = None ->
  get_available_formats info_formats = inl (key_error (lit "format_id")).
Proof.
  intros Hin Hel Hid.
  pose proof (get_available_formats_shape info_formats) as Hshape.
  destruct (proj2 (collect_raises (default [] info_formats))) as [e He]; [eauto|].
  rewrite He in Hshape. rewrite Hshape. f_equal.
  by eapply collect_raises_key_error.
Qed.

(** X4.  [get_available_formats] raises exactly when a format that
    passes the filter has no ['format_id'], and then it is the
    [KeyError] of that key; audio-only formats, formats below 144 and
    formats of unknown height may lack it. *)
Theorem formats_missing_format_id info_formats :
  ((∃ e, get_available_formats info_formats = inl e)
   ↔ ∃ f, f ∈ default [] info_formats ∧ eligible f = true
          ∧ f_format_id f = None)
  ∧ (∀ e, get_available_formats info_formats = inl e ->
          e = key_error (lit "format_id")).
Proof.
  pose proof (get_available_formats_shape info_formats) as Hshape.
  split.
  - rewrite <- collect_raises. split.
    + intros [e He].
      destruct (collect_video_formats _) as [e'|vfs]; [eauto|].
      destruct Hshape as [? Hok]. congruence.
    + intros [e He]. exists e. by rewrite He in Hshape.
  - intros e He.
    destruct (collect_video_formats _) as [e'|vfs] eqn:Hc.
    + rewrite Hshape in He. injection He as ->.
      by eapply collect_raises_key_error.
    + destruct Hshape as [? Hok]. congruence.
Qed.
End FormatFacts.

(* ===================================================================== *)
(** * More properties: from the formats offered to the format selected *)
(* ===================================================================== *)

Section SelectionFacts.
Context `{PyInt}.

Lemma nilempty_digits (d : Decimal.uint) :
  Forall is_digit (lit (NilEmpty.string_of_uint d)).
Proof.
  unfold is_digit.
  induction d; simpl; constructor; try exact IHd; simpl; lia.
Qed.

Lemma decimal_digits (n : Z) : Forall is_digit (Double.decimal n).
Proof.
  unfold Double.decimal, NilZero.string_of_uint.
  destruct (N.to_uint (Z.to_N n)); try apply nilempty_digits.
  repeat constructor; unfold is_digit; simpl; lia.
Qed.

Lemma int_str_chars (z : Z) : Forall (fun c => is_digit c ∨ c = 45%N) (int_str z).
Proof.
  unfold int_str. destruct (z <? 0)%Z.
  - constructor; [by right|].
    eapply Forall_impl; [apply decimal_digits|]. by left.
  - eapply Forall_impl; [apply decimal_digits|]. by left.
Qed.

(** A string without the first character of [old] has nothing to replace. *)
Lemma replace_go_absent (c0 : N) (old' new s : pystr) :
  c0 ∉ s -> replace_go (c0 :: old') new 0 s = s.
Proof.
  induction s as [|c s IH]; intros Hs; [done|].
  cbn [replace_go startswith].
  apply not_elem_of_cons in Hs as [Hne Hs].
  rewrite (proj2 (N.eqb_neq c0 c)) by done. simpl. by rewrite IH.
Qed.

Lemma replace_trailing_p (s : pystr) :
  112%N ∉ s -> str_replace (lit "p") [] (s ++ lit "p") = s.
Proof.
  unfold str_replace. change (lit "p") with [112%N].
  induction s as [|c s IH]; intros Hs; [done|].
  apply not_elem_of_cons in Hs as [Hne Hs].
  cbn [app replace_go startswith].
  rewrite (proj2 (N.eqb_neq 112 c)) by done. simpl. by rewrite IH.
Qed.

(** The id of a video option reads back as its height. *)
Lemma video_id_height_str (h : Z) :
  str_replace (lit "p") [] (str_replace (lit "video_") [] (fo_id (video_option h)))
  = int_str h.
Proof.
  pose proof (int_str_chars h) as Hchars.
  assert (Hno : ∀ c, ¬ is_digit c -> c ≠ 45%N -> c ∉ int_str h).
  { intros c Hd H45 Hin. eapply list.Forall_forall in Hchars; [|exact Hin].
    tauto. }
  assert (Hv : 118%N ∉ int_str h ++ lit "p").
  { rewrite elem_of_app. intros [Hin|Hin].
    - revert Hin. apply Hno; unfold is_digit; lia.
    - apply list_elem_of_singleton in Hin. discriminate Hin. }
  assert (Hp : 112%N ∉ int_str h) by (apply Hno; unfold is_digit; lia).
  replace (str_replace (lit "video_") [] (fo_id (video_option h)))
    with (int_str h ++ lit "p").
  - by apply replace_trailing_p.
  - unfold str_replace, video_option, fo_id.
    change (lit "video_" ++ ?t)
      with (118 :: 105 :: 100 :: 101 :: 111 :: 95 :: t)%N.
    change (lit "video_") with [118; 105; 100; 101; 111; 95]%N.
    cbn [replace_go startswith N.eqb Pos.eqb andb app length Nat.sub].
    by rewrite replace_go_absent.
Qed.

Lemma video_id_not_best (h : Z) : fo_id (video_option h) ≠ lit "video_best".
Proof.
  unfold video_option, fo_id.
  change (lit "video_" ++ ?t) with (118 :: 105 :: 100 :: 101 :: 111 :: 95 :: t)%N.
  change (lit "video_best") with [118; 105; 100; 101; 111; 95; 98; 101; 115; 116]%N.
  intros [= Heq]. pose proof (int_str_chars h) as Hchars.
  destruct (int_str h) as [|c rest]; [discriminate Heq|].
  injection Heq as -> _. apply Forall_inv in Hchars.
  unfold is_digit in Hchars. destruct Hchars as [?|?]; [lia|discriminate].
Qed.

Lemma video_id_prefixes (h : Z) :
  startswith (lit "audio_") (fo_id (video_option h)) = false
  ∧ startswith (lit "video_") (fo_id (video_option h)) = true.
Proof. split; reflexivity. Qed.

(** X5.  Every option that [get_available_formats] offers is understood
    by both fetch paths: handed back as the format choice, the audio
    option selects ['bestaudio/best'] with extraction to mp3, the
    option ['video_best'] the best-quality selector, and a video option
    of height [h] the selector limited to that same [h], the last two
    merged to mp4; [download_media] and [stream_download] agree. *)
Theorem offered_formats_are_selectable info_formats options (o : format_option) :
  get_available_formats info_formats = inr options ->
  o ∈ options ->
  stream_download_opts (fo_id o) = download_media_opts (fo_id o)
  ∧ download_media_opts (fo_id o)
    = match fo_height o with
      | Some h =>
          {| opt_format := Some (height_selector h); opt_postprocessors := [];
             opt_merge_output_format := Some (lit "mp4") |}
      | None =>
          if decide (fo_type o = lit "audio") then
            {| opt_format := Some (lit "bestaudio/best");
               opt_postprocessors :=
                 [(lit "FFmpegExtractAudio", lit "mp3", lit "192")];
               opt_merge_output_format := None |}
          else
            {| opt_format := Some best_selector; opt_postprocessors := [];
               opt_merge_output_format := Some (lit "mp4") |}
      end.
Proof.
  intros Hget Ho. split; [reflexivity|].
  destruct (get_available_formats_inv _ _ Hget) as (vfs & _ & ->).
  assert (Hcases : o = audio_option ∨ o = best_option ∨ ∃ h, o = video_option h).
  { simpl in Ho. apply elem_of_cons in Ho as [->|Ho]; [by left|right].
    case_decide.
    - apply list_elem_of_singleton in Ho. by left.
    - right. destruct (quality_options_types _ _ _ Ho) as (h & -> & _). eauto. }
  destruct Hcases as [->|[->|[h ->]]]; [reflexivity|reflexivity|].
  unfold download_media_opts.
  destruct (video_id_prefixes h) as [-> ->].
  rewrite decide_False by apply video_id_not_best.
  rewrite video_id_height_str, py_int_str. reflexivity.
Qed.
End SelectionFacts.

(* ===================================================================== *)
(** * More properties: the hook, [download_media] and the worker's table *)
(* ===================================================================== *)

Section HookEdges.
Context `{PyNum}.

Lemma hook_total_none (d : progress_dict) :
  hook_total d = PyNone
  <-> py_truthy (dict_get (d_total_bytes d)) = false
      ∧ d_total_bytes_estimate d = Some PyNone.
Proof.
  unfold hook_total, py_or.
  destruct (py_truthy (dict_get (d_total_bytes d))) eqn:Ht.
  - split; [|by intros [? _]]. intros Hn. rewrite Hn in Ht. done.
  - destruct (d_total_bytes_estimate d) as [[|x]|]; simpl;
      split; try done; by intros [_ ?].
Qed.

(** X6.  The progress hook raises only [TypeError], only on a
    ['downloading'] event, and exactly when the total it computes is
    [None] (no truthy [total_bytes] and a [total_bytes_estimate] that is
    present with the value [None]) or the total is positive and
    [downloaded_bytes] is present with the value [None]; it then has
    forwarded nothing.  It forwards at most one event per dict, and
    without a callback it does nothing at all. *)
Theorem hook_raises_only_on_none (d : progress_dict) :
  length (forwarded d) <= 1
  ∧ (∀ e, hook_result d = inl e ->
       exn_class_of e = TypeError ∧ forwarded d = []
       ∧ d_status d = lit "downloading"
       ∧ (hook_total d = PyNone
          ∨ (∃ t, hook_total d = PyNumber t ∧ num_gt0 t = true)
            ∧ hook_downloaded d = PyNone))
  ∧ (d_status d = lit "downloading" ->
     hook_total d = PyNone
     ∨ (∃ t, hook_total d = PyNumber t ∧ num_gt0 t = true)
       ∧ hook_downloaded d = PyNone ->
     ∃ e, hook_result d = inl e)
  ∧ (hook_total d = PyNone
     <-> py_truthy (dict_get (d_total_bytes d)) = false
         ∧ d_total_bytes_estimate d = Some PyNone)
  ∧ (hook_downloaded d = PyNone <-> d_downloaded_bytes d = Some PyNone)
  ∧ (∀ St (s : St), hook None d s = (s, inr tt)).
Proof.
  split_and!.
  - unfold forwarded.
    destruct (hook_cases record_event d []) as [-> | [[m ->] | [ev ->]]];
      simpl; lia.
  - intros e. unfold hook_result, forwarded, hook.
    case_decide as Hst.
    + unfold mbind, M_bind, bind, lift.
      destruct (hook_total d) as [|t] eqn:Ht; simpl.
      { intros [= <-]. auto. }
      destruct (num_gt0 t) eqn:Hgt; [|done].
      destruct (hook_downloaded d) as [|dl] eqn:Hdl; simpl.
      { intros [= <-]. split_and!; eauto. }
      by rewrite (num_gt0_bool _ Hgt).
    + repeat case_decide; done.
  - intros Hst Hcase. unfold hook_result, hook. rewrite decide_True by done.
    unfold mbind, M_bind, bind, lift.
    destruct Hcase as [-> | [(t & -> & Hgt) ->]]; simpl; [eauto|].
    rewrite Hgt. simpl. eauto.
  - apply hook_total_none.
  - unfold hook_downloaded.
    destruct (d_downloaded_bytes d) as [[|x]|]; simpl; split; done.
  - reflexivity.
Qed.
End HookEdges.

Section DownloadMediaFacts.
Context `{PyNum}.

Lemma basename_go_no_slash (acc s : pystr) :
  47%N ∉ acc -> 47%N ∉ basename_go acc s.
Proof.
  revert acc. induction s as [|c s IH]; intros acc Hacc; simpl; [done|].
  destruct (c =? 47)%N eqn:Hc.
  - apply IH, not_elem_of_nil.
  - apply IH. apply N.eqb_neq in Hc.
    rewrite elem_of_app, list_elem_of_singleton. intros [?|?]; [done|congruence].
Qed.

Lemma basename_no_slash (p : pystr) : 47%N ∉ basename p.
Proof. apply basename_go_no_slash, not_elem_of_nil. Qed.

(** With no hook registered yt-dlp's events pass unnoticed. *)
Lemma extract_events_no_hooks {St} (events : list progress_dict) (st : St) :
  extract_events [] events st = (st, inr tt).
Proof.
  induction events as [|d events IH]; [done|].
  cbn [extract_events call_hooks]. unfold mbind, M_bind, bind. simpl.
  exact IH.
Qed.

(** X7.  What [download_media] reports.  A success carries a file name
    without any ['/'] (the base name of the path yt-dlp prepared, with
    ['.webm'] and ['.m4a'] replaced for an audio selection) and the
    title or ['Sin título'].  Called without a callback it leaves the
    caller's state alone and its result depends on yt-dlp's outcome
    only: an info dict gives the success, [None] the failure ['No se
    pudo descargar el archivo'], a [DownloadError] the failure ['Error
    de descarga: ...'] and any other exception ['Error inesperado:
    ...'], whatever events yt-dlp reported on the way. *)
Theorem download_media_result {St} engine download_path url format_choice
    (cb : option (progress_info -> M St unit)) (st : St) :
  let run := engine url format_choice in
  let out := download_media engine download_path url format_choice cb st in
  (∀ name path title, out.2 = inr (DMSuccess name path title) ->
     (47%N ∉ name)
     ∧ ∃ prepared t, run_outcome run = Info prepared t
         ∧ name = basename (actual_filename format_choice prepared)
         ∧ title = default sin_titulo t)
  ∧ (cb = None ->
     out.1 = st
     ∧ match run_outcome run with
       | Info prepared t =>
           ∃ path, out.2 = inr (DMSuccess
                                  (basename (actual_filename format_choice prepared))
                                  path (default sin_titulo t))
       | InfoNone =>
           out.2 = inr (DMFailure (Some (lit "No se pudo descargar el archivo")))
       | EngineRaises e =>
           out.2 = inr (DMFailure
                          (Some ((if decide (exn_class_of e = DownloadError)
                                  then lit "Error de descarga: "
                                  else lit "Error inesperado: ") ++ exn_str e)))
       end).
Proof.
  intros run out. subst run out. split.
  - intros name path title.
    unfold download_media, extract_info, try_except, mbind, M_bind, bind.
    destruct (extract_events _ _ st) as [st1 [e|[]]]; simpl.
    { case_decide; intros [=]. }
    destruct (run_outcome _) as [|prepared t|e]; simpl.
    + intros [=].
    + intros [= <- <- <-]. split; [apply basename_no_slash|eauto].
    + unfold raise. case_decide; intros [=].
  - intros ->.
    unfold download_media, extract_info, try_except, mbind, M_bind, bind.
    rewrite extract_events_no_hooks.
    destruct (run_outcome _) as [|prepared t|e]; simpl; eauto.
    unfold raise. by case_decide.
Qed.
End DownloadMediaFacts.

Section TableFacts.
Context `{PyNum}.

Implicit Types (sys : system) (l : label) (ls : list label)
  (s : store) (t task_id url format_choice : pystr) (r : progress_record).

Lemma after_callbacks_other task_id infos s t :
  t ≠ task_id -> after_callbacks task_id infos s !! t = s !! t.
Proof.
  intros Hne. revert s. unfold after_callbacks.
  induction infos as [|info infos IH]; intros s; simpl; [done|].
  rewrite IH. by apply progress_callback_other.
Qed.

(** X8.  A worker writes under its own task id only: whatever yt-dlp
    reports and however the fetch ends, the record of every other task
    is after the worker's return what it was before its start. *)
Theorem download_worker_touches_own_record engine task_id url format_choice s t :
  t ≠ task_id ->
  (download_worker engine task_id url format_choice s).1 !! t = s !! t.
Proof.
  intros Hne. unfold download_worker. rewrite download_worker_with_eq.
  destruct (download_media_callbacks engine (lit "static/downloads") task_id
              url format_choice (<[task_id := connecting_record]> s))
    as [infos Hinfos].
  cbn [fst]. rewrite finish_write_other, Hinfos, after_callbacks_other by done.
  by rewrite lookup_insert_ne.
Qed.

Lemma stops_terminal r : terminal r = true -> stops_stream r = true.
Proof.
  unfold terminal, stops_stream. rewrite !bool_decide_eq_true.
  rewrite !elem_of_cons. tauto.
Qed.

(** X9.  The worker and the notifier, one after the other: a
    subscription that starts once [download_worker] has returned emits
    one event, the record the worker has left, and ends.  That record is
    an ['error'] record, or the ['completed'] record of a file name
    without ['/'], the base name of the path yt-dlp prepared, with the
    URL ['/downloads/'] followed by that name. *)
Theorem finished_worker_subscription (engine : pystr -> pystr -> engine_run)
    task_id url format_choice s (polls : list store) :
  let s' := (download_worker engine task_id url format_choice s).1 in
  ∃ r, s' !! task_id = Some r
    ∧ get_progress task_id (s' :: polls) = ([r], true)
    ∧ ((∃ msg, r = error_record msg)
       ∨ ∃ name prepared title,
           r = completed_record name
           ∧ download_url r = Some (lit "/downloads/" ++ name)
           ∧ (47%N ∉ name)
           ∧ run_outcome (engine url format_choice) = Info prepared title
           ∧ name = basename (actual_filename format_choice prepared)).
Proof.
  intros s'. subst s'. unfold download_worker. rewrite download_worker_with_eq.
  destruct (download_media_never_raises engine (lit "static/downloads") url
              format_choice (Some (progress_callback task_id))
              (<[task_id := connecting_record]> s)) as (s1 & result & Hrun).
  rewrite Hrun. cbn [fst snd finish_write].
  exists (result_record result). split; [apply lookup_insert_eq|].
  assert (Hcases : (∃ msg, result_record result = error_record msg)
       ∨ ∃ name prepared title,
           result_record result = completed_record name
           ∧ download_url (result_record result) = Some (lit "/downloads/" ++ name)
           ∧ (47%N ∉ name)
           ∧ run_outcome (engine url format_choice) = Info prepared title
           ∧ name = basename (actual_filename format_choice prepared)).
  { destruct result as [name path title|error]; simpl; [right|left; eauto].
    apply download_media_success_name in Hrun as (prepared & t & Hinfo & ->).
    eexists _, prepared, t. split_and!; try done. apply basename_no_slash. }
  split; [|exact Hcases].
  unfold get_progress. rewrite generate_step. unfold current_progress.
  rewrite lookup_insert_eq. rewrite decide_False by done.
  rewrite stops_terminal; [done|].
  destruct Hcases as [[msg ->]|(name & ? & ? & -> & _)]; reflexivity.
Qed.

(** X10.  Cleaning up a task whose worker is still fetching does not
    stop the worker.  The record is gone, so a subscription that starts
    now is told ['not_found'] and ends; a later ['finished'] event
    raises [KeyError] inside the callback and leaves the table as it
    is; a later ['downloading'] event and the worker's last write store
    a record under the id again, and after the last write that record
    is terminal. *)
Theorem cleanup_does_not_stop_worker sys task_id :
  workers sys !! task_id = Some Fetching ->
  ∃ sys1, sys_step (Cleanup task_id) sys = Some sys1
    ∧ table sys1 !! task_id = None
    ∧ workers sys1 !! task_id = Some Fetching
    ∧ (∀ polls, get_progress task_id (table sys1 :: polls)
                = ([not_found_record], true))
    ∧ (∀ info, pi_status info = lit "finished" ->
         progress_callback task_id info (table sys1)
         = (table sys1, inl (key_error task_id)))
    ∧ (∀ info sys2, pi_status info = lit "downloading" ->
         sys_step (Callback task_id info) sys1 = Some sys2 ->
         table sys2 !! task_id = Some (downloading_record (pi_percentage info)))
    ∧ (∀ outcome, ∃ sys2 r,
         sys_step (Finish task_id outcome) sys1 = Some sys2
         ∧ table sys2 !! task_id = Some r ∧ terminal r = true
         ∧ workers sys2 !! task_id = Some Done).
Proof.
  intros Hw. eexists. split; [reflexivity|]. cbn [table workers cleanup_task modify fst].
  assert (Hgone : delete task_id (table sys) !! task_id = None)
    by apply lookup_delete_eq.
  split_and!; try done.
  - intros polls. unfold get_progress. rewrite generate_step.
    unfold current_progress. rewrite Hgone. reflexivity.
  - intros info Hst. unfold progress_callback.
    rewrite decide_False by (rewrite Hst; discriminate).
    rewrite decide_True by done. by rewrite Hgone.
  - intros info sys2 Hst. cbn [sys_step workers table]. rewrite Hw.
    intros [= <-]. cbn [table]. unfold progress_callback.
    rewrite decide_True by done. cbn [modify fst]. apply lookup_insert_eq.
  - intros outcome. cbn [sys_step workers table]. rewrite Hw.
    destruct (finish_write_own task_id outcome (delete task_id (table sys)))
      as (r & Hr & Hst).
    eexists _, r. split; [reflexivity|]. cbn [table workers].
    split_and!; [done| |apply lookup_insert_eq].
    unfold terminal. apply bool_decide_eq_true_2.
    destruct Hst as [-> | ->]; set_solver.
Qed.
End TableFacts.

Section ReadFacts.
Context `{PyNum}.

Implicit Types (sys : system) (l : label) (ls : list label)
  (s : store) (t task_id : pystr) (r : progress_record).

Lemma worker_inv_initial : worker_inv initial_system.
Proof. intros t. simpl. by rewrite !lookup_empty. Qed.

Lemma worker_inv_step l sys sys' :
  worker_inv sys -> sys_step l sys = Some sys' -> worker_inv sys'.
Proof.
  intros Hinv Hstep t. specialize (Hinv t).
  destruct l as [task_id|task_id info|task_id outcome|task_id|task_id];
    simpl in Hstep.
  - destruct (workers sys !! task_id) eqn:Hw; [done|]. injection Hstep as <-.
    simpl. destruct (decide (t = task_id)) as [->|Hne].
    + rewrite !lookup_insert_eq. intros r [= <-]. by left.
    + by rewrite !lookup_insert_ne.
  - destruct (workers sys !! task_id) as [[]|] eqn:Hw; try done.
    injection Hstep as <-. simpl. destruct (decide (t = task_id)) as [->|Hne].
    + rewrite Hw in *. intros r Hr.
      apply progress_callback_own in Hr as [Hr|Hr]; auto.
    + by rewrite progress_callback_other.
  - destruct (workers sys !! task_id) as [[]|] eqn:Hw; try done.
    injection Hstep as <-. simpl. destruct (decide (t = task_id)) as [->|Hne].
    + rewrite lookup_insert_eq.
      destruct (finish_write_own task_id outcome (table sys)) as (r' & -> & Hst).
      intros r [= <-]. unfold terminal. apply bool_decide_eq_true_2.
      destruct Hst as [-> | ->]; set_solver.
    + by rewrite finish_write_other, lookup_insert_ne.
  - by injection Hstep as <-.
  - injection Hstep as <-. simpl. destruct (decide (t = task_id)) as [->|Hne].
    + rewrite lookup_delete_eq. by destruct (workers sys !! task_id) as [[]|].
    + by rewrite lookup_delete_ne.
Qed.

Lemma worker_inv_run ls sys sys' :
  worker_inv sys -> sys_run ls sys = Some sys' -> worker_inv sys'.
Proof.
  revert sys. induction ls as [|l ls IH]; intros sys Hinv; simpl.
  - by intros [= <-].
  - destruct (sys_step l sys) as [sys1|] eqn:Hstep; [|done].
    eauto using worker_inv_step.
Qed.

(** X11.  What a read tells about the worker, in every state the system
    can reach: ['downloading'] or ['processing'] is read only while the
    worker of the task is fetching; ['completed'] or ['error'] only once
    it has made its last write; without a worker the read is the
    synthesized ['not_found'] record; no other status is ever read.  So
    a poll made once the worker is done ends the subscription, whatever
    was polled before. *)
Theorem read_reflects_worker ls sys task_id :
  sys_run ls initial_system = Some sys ->
  let r := current_progress task_id (table sys) in
  (status r = lit "downloading" ∨ status r = lit "processing" ->
     workers sys !! task_id = Some Fetching)
  ∧ (status r = lit "completed" ∨ status r = lit "error" ->
     workers sys !! task_id = Some Done)
  ∧ (workers sys !! task_id = None -> r = not_found_record)
  ∧ status r ∈ [lit "downloading"; lit "processing"; lit "completed";
                lit "error"; lit "not_found"]
  ∧ (workers sys !! task_id = Some Done ->
     stops_stream r = true
     ∧ ∀ before after : list store,
         (get_progress task_id (before ++ table sys :: after)).2 = true).
Proof.
  intros Hrun r.
  pose proof (worker_inv_run _ _ _ worker_inv_initial Hrun task_id) as Hinv.
  assert (Hstop : workers sys !! task_id = Some Done -> stops_stream r = true).
  { intros Hw. rewrite Hw in Hinv. subst r. unfold current_progress.
    destruct (table sys !! task_id) as [r0|]; [|reflexivity].
    by apply stops_terminal, Hinv. }
  subst r. unfold current_progress in *.
  destruct (table sys !! task_id) as [r0|] eqn:Hr0.
  - destruct (workers sys !! task_id) as [[]|] eqn:Hw; [| |done].
    + destruct (Hinv _ eq_refl) as [Hst|Hst]; rewrite Hst;
        split_and!; try done; try (by intros [?|?]); set_solver.
    + specialize (Hinv _ eq_refl). unfold terminal in Hinv.
      apply bool_decide_eq_true in Hinv.
      split_and!; try done.
      * intros [Hst|Hst]; rewrite Hst in Hinv; exfalso;
          repeat (apply elem_of_cons in Hinv as [Hinv|Hinv]; [discriminate Hinv|]);
          by apply elem_of_nil in Hinv.
      * set_solver.
      * intros _. split; [by apply Hstop|]. intros before after.
        unfold get_progress. rewrite generate_stops.
        apply bool_decide_eq_true_2, Exists_app. right. left.
        unfold current_progress. rewrite Hr0. by apply Hstop.
  - split_and!; try done; try (by intros [?|?]); [set_solver|].
    intros Hw. split; [reflexivity|]. intros before after.
    unfold get_progress. rewrite generate_stops.
    apply bool_decide_eq_true_2, Exists_app. right. left.
    unfold current_progress. by rewrite Hr0.
Qed.
End ReadFacts.

(* ===================================================================== *)
(** * More properties: what [stream_download] yields *)
(* ===================================================================== *)

Section StreamData.

Implicit Types (disk : fs) (dir p : pystr) (env : stream_env)
  (patience : option nat).

(** The loop reaches the end of the file only after every chunk. *)
Lemma stream_file_exhausted faults i patience (pending ys : list (list byte)) :
  stream_file faults i patience pending = (ys, Exhausted) -> ys = pending.
Proof.
  revert i patience ys.
  induction pending as [|c rest IH]; intros i patience ys; simpl.
  - destruct (faults i); intros [= <-]; done.
  - destruct (faults i); [intros [=]|].
    destruct patience as [[|n]|]; simpl; [intros [=]| |].
    + destruct (stream_file faults (S i) (Some n) rest) as [more e] eqn:Hrec.
      intros [= <- ->]. by rewrite (IH _ _ _ Hrec).
    + destruct (stream_file faults (S i) None rest) as [more e] eqn:Hrec.
      intros [= <- ->]. by rewrite (IH _ _ _ Hrec).
Qed.

(** Only the consumer closes the stream. *)
Lemma stream_file_closed faults i (pending : list (list byte)) :
  (stream_file faults i None pending).2 ≠ Closed.
Proof.
  revert i. induction pending as [|c rest IH]; intros i; simpl.
  - by destruct (faults i).
  - destruct (faults i); [done|]. specialize (IH (S i)). simpl.
    by destruct (stream_file faults (S i) None rest).
Qed.

Lemma stream_body_cases env format_choice patience disk :
  let out := stream_body env format_choice patience disk in
  (out.2.1 = [] ∧ out.2.2 ≠ Closed)
  ∨ ∃ prepared title data,
      fetch env (tmp_name env) disk = (out.1, Info prepared title)
      ∧ fs_lookup (chosen_file (tmp_name env)
                     (actual_filename format_choice prepared) out.1) out.1
        = Some (File data)
      ∧ out.2 = stream_file (read_fault env) 0 patience (file_chunks data).
Proof.
  unfold stream_body.
  destruct (fetch env (tmp_name env) disk) as [disk' [|prepared title|e]];
    cbn [fst snd]; [by left| |by left].
  destruct (path_exists _ disk'); [|by left].
  unfold open_rb. destruct (open_fault env); [by left|].
  destruct (fs_lookup _ disk') as [[data|]|] eqn:Hfile; [|by left|by left].
  right. by exists prepared, title, data.
Qed.

(** X12.  What [stream_download] yields is never anything but the
    leading part of one file: every chunk is non-empty and at most 8192
    bytes long, and when anything is yielded, yt-dlp has delivered an
    info dict and the chunks are, in order, the first chunks of the file
    the generator settled on, so their concatenation is a prefix of its
    content.  A generator that ends by exhaustion has yielded the whole
    file, as has one iterated to the end without a read fault; and the
    generator ends as closed only if the consumer closes it. *)
Theorem stream_download_yields_file_prefix env format_choice patience disk :
  let run := stream_download env format_choice patience disk in
  Forall (fun c => 0 < length c <= chunk_size) (chunks run)
  ∧ (patience = None -> ending run ≠ Closed)
  ∧ (chunks run ≠ [] ->
     ∃ disk' prepared title data,
       fetch env (tmp_name env) (disk ++ [(tmp_name env, Dir)])
         = (disk', Info prepared title)
       ∧ fs_lookup (chosen_file (tmp_name env)
                      (actual_filename format_choice prepared) disk') disk'
         = Some (File data)
       ∧ chunks run `prefix_of` file_chunks data
       ∧ concat (chunks run) `prefix_of` data
       ∧ (ending run = Exhausted -> concat (chunks run) = data)
       ∧ (patience = None -> (∀ i, read_fault env i = None) ->
            concat (chunks run) = data ∧ ending run = Exhausted)).
Proof.
  intros run.
  pose proof (stream_body_cases env format_choice patience
                (disk ++ [(tmp_name env, Dir)])) as Hcases.
  assert (Hrun : chunks run = (stream_body env format_choice patience
                                 (disk ++ [(tmp_name env, Dir)])).2.1
               ∧ ending run = (stream_body env format_choice patience
                                 (disk ++ [(tmp_name env, Dir)])).2.2).
  { subst run. unfold stream_download.
    destruct (stream_body _ _ _ _) as [disk2 [yielded e]].
    by destruct (rmtree_fault env) as [[err removed]|]. }
  destruct Hrun as [Hchunks Hend]. rewrite Hchunks, Hend. clear Hchunks Hend run.
  destruct (stream_body _ _ _ _) as [disk' [yielded e]]. cbn [fst snd] in *.
  destruct Hcases as [[-> Hnc]|(prepared & title & data & Hfetch & Hfile & Hout)].
  { split_and!; [constructor|done|done]. }
  assert (Hprefix : yielded `prefix_of` file_chunks data).
  { replace yielded with (yielded, e).1 by done. rewrite Hout.
    apply stream_file_prefix. }
  split_and!.
  - destruct Hprefix as [rest Hrest].
    pose proof (chunks_of_bounded (length data) data) as Hb.
    fold (file_chunks data) in Hb. rewrite Hrest in Hb.
    by apply Forall_app in Hb as [Hb _].
  - intros ->. replace e with (yielded, e).2 by done. rewrite Hout.
    apply stream_file_closed.
  - intros _. exists disk', prepared, title, data. split_and!; try done.
    + destruct Hprefix as [rest Hrest]. exists (concat rest).
      by rewrite <- concat_app, <- Hrest, file_chunks_concat.
    + intros ->. symmetry in Hout. apply stream_file_exhausted in Hout as ->.
      apply file_chunks_concat.
    + intros -> Hreads. rewrite stream_file_all in Hout by done.
      injection Hout as -> ->. split; [apply file_chunks_concat|done].
Qed.

(** Every path a directory scan lists exists. *)
Lemma fs_lookup_listed p disk : p ∈ map fst disk -> is_Some (fs_lookup p disk).
Proof.
  unfold fs_lookup. induction disk as [|[q n] disk IH]; simpl.
  - by intros ?%elem_of_nil.
  - intros Hin. case_bool_decide as Hq; simpl; [eauto|].
    apply elem_of_cons in Hin as [->|Hin]; [done|]. by apply IH.
Qed.

(** The generator finds no file exactly when the predicted one is
    missing and the temporary directory is empty. *)
Lemma chosen_file_missing dir (filename : pystr) disk :
  path_exists (chosen_file dir filename disk) disk = false
  <-> path_exists filename disk = false ∧ glob_star dir disk = [].
Proof.
  unfold chosen_file. destruct (path_exists filename disk) eqn:Hp.
  - rewrite Hp. naive_solver.
  - destruct (glob_star dir disk) as [|first rest] eqn:Hg.
    + rewrite Hp. naive_solver.
    + split; [|by intros [_ ?]]. intros Hmiss. exfalso.
      assert (Hin : first ∈ glob_star dir disk) by (rewrite Hg; left).
      unfold glob_star in Hin. apply list_elem_of_filter in Hin as [_ Hin].
      apply fs_lookup_listed in Hin. unfold path_exists in Hmiss.
      by apply bool_decide_eq_false in Hmiss.
Qed.

Lemma stream_file_silent faults patience (data : list byte) :
  stream_file faults 0 patience (file_chunks data) = ([], Exhausted)
  <-> faults 0 = None ∧ data = [].
Proof.
  destruct data as [|b data].
  - simpl. destruct (faults 0); naive_solver.
  - unfold file_chunks. cbn [length chunks_of stream_file].
    destruct (faults 0); [naive_solver|].
    destruct patience as [[|n]|]; [naive_solver| |];
      destruct (stream_file _ _ _ _); naive_solver.
Qed.

(** X13.  The response that is empty and still ends normally.  The
    generator yields nothing and ends by exhaustion exactly when yt-dlp
    has returned an info dict and either no file is found (the
    predicted one is missing and the temporary directory has no entry)
    or the file settled on opens, is empty, and its first read does not
    fail.  And nothing is printed exactly when the generator does not
    end with an exception and the removal of the directory succeeds. *)
Theorem stream_download_silent_iff env format_choice patience disk :
  let run := stream_download env format_choice patience disk in
  (chunks run = [] ∧ ending run = Exhausted
   <-> ∃ disk' prepared title,
         fetch env (tmp_name env) (disk ++ [(tmp_name env, Dir)])
           = (disk', Info prepared title)
         ∧ let predicted := actual_filename format_choice prepared in
           (path_exists predicted disk' = false
            ∧ glob_star (tmp_name env) disk' = [])
           ∨ (open_fault env = None ∧ read_fault env 0 = None
              ∧ fs_lookup (chosen_file (tmp_name env) predicted disk') disk'
                = Some (File [])))
  ∧ (printed run = []
     <-> (∀ e, ending run ≠ Faulted e) ∧ rmtree_fault env = None).
Proof.
  intros run. split.
  - assert (Hrun : (chunks run, ending run)
                   = (stream_body env format_choice patience
                        (disk ++ [(tmp_name env, Dir)])).2).
    { subst run. unfold stream_download.
      destruct (stream_body _ _ _ _) as [disk2 [yielded e]].
      by destruct (rmtree_fault env) as [[err removed]|]. }
    assert (Hpair : chunks run = [] ∧ ending run = Exhausted
                    <-> (chunks run, ending run) = ([], Exhausted)).
    { split; [by intros [-> ->]|by intros [= -> ->]]. }
    rewrite Hpair, Hrun. clear Hpair Hrun run. unfold stream_body.
    destruct (fetch env (tmp_name env) _) as [disk' [|prepared title|e]];
      cbn [snd]; [naive_solver| |naive_solver].
    pose proof (chosen_file_missing (tmp_name env)
                  (actual_filename format_choice prepared) disk') as Hmiss.
    destruct (path_exists (chosen_file _ _ disk') disk') eqn:Hex.
    + unfold open_rb. unfold path_exists in Hex.
      apply bool_decide_eq_true in Hex as [nd Hnd].
      assert (Hnot : ¬ (path_exists (actual_filename format_choice prepared) disk'
                          = false ∧ glob_star (tmp_name env) disk' = []))
        by (intros Hboth; apply Hmiss in Hboth; done).
      destruct (open_fault env) as [e|]; [naive_solver|].
      rewrite Hnd. destruct nd as [data|]; [|naive_solver].
      rewrite stream_file_silent. split.
      * intros [Hread ->]. exists disk', prepared, title. split; [done|].
        by right.
      * intros (? & ? & ? & [= <- <- <-] & [Hboth|(_ & Hread & Hfile)]);
          [done|]. rewrite Hnd in Hfile. by injection Hfile as ->.
    + split; [|done]. intros _. exists disk', prepared, title.
      split; [done|]. left. by apply Hmiss.
  - subst run. unfold stream_download.
    destruct (stream_body _ _ _ _) as [disk2 [yielded e]].
    destruct (rmtree_fault env) as [[err removed]|]; destruct e; simpl;
      naive_solver.
Qed.
End StreamData.

(* ===================================================================== *)
(** * More properties: [analyze_url] and the routes *)
(* ===================================================================== *)

Section RouteFacts.
Context `{PyNum}.
Variable unicode_alnum : N -> bool.

Implicit Types (lookup : pystr -> metadata_outcome) (url : pystr)
  (world : pystr -> stream_env).

Lemma rstrip_cons (c : N) (s : pystr) :
  rstrip (c :: s) = match rstrip s with
                    | [] => if isspace c then [] else [c]
                    | kept_tail => c :: kept_tail
                    end.
Proof. reflexivity. Qed.

Lemma rstrip_idem (s : pystr) : rstrip (rstrip s) = rstrip s.
Proof.
  induction s as [|c s IH]; [done|]. rewrite rstrip_cons.
  destruct (rstrip s) as [|k ks] eqn:Hr.
  - destruct (isspace c) eqn:Hc; [done|]. rewrite rstrip_cons. simpl.
    by rewrite Hc.
  - by rewrite rstrip_cons, IH.
Qed.

Lemma lstrip_head (s : pystr) c : head (lstrip s) = Some c -> isspace c = false.
Proof.
  induction s as [|a s IH]; simpl; [done|].
  destruct (isspace a) eqn:Ha; [done|]. by intros [= <-].
Qed.

Lemma rstrip_head_keep (c : N) (s : pystr) :
  isspace c = false -> ∃ tl, rstrip (c :: s) = c :: tl.
Proof.
  intros Hc. rewrite rstrip_cons. destruct (rstrip s); [rewrite Hc|]; eauto.
Qed.

Lemma strip_cases (s : pystr) :
  strip s = [] ∨ ∃ c tl, strip s = c :: tl ∧ isspace c = false.
Proof.
  unfold strip. destruct (lstrip s) as [|a t] eqn:Hl; [by left|]. right.
  assert (Ha : isspace a = false) by (apply (lstrip_head s); by rewrite Hl).
  destruct (rstrip_head_keep a t Ha) as [tl ->]. eauto.
Qed.

(** Stripping twice is stripping once. *)
Lemma strip_idem (s : pystr) : strip (strip s) = strip s.
Proof.
  destruct (strip_cases s) as [->|(c & tl & Hs & Hc)]; [done|].
  unfold strip at 1. rewrite Hs. simpl. rewrite Hc.
  rewrite <- Hs. unfold strip. apply rstrip_idem.
Qed.

Lemma analyze_url_ext lookup lookup' url :
  lookup' url = lookup url -> analyze_url lookup' url = analyze_url lookup url.
Proof. unfold analyze_url. by intros ->. Qed.

(** X14.  [analyze_url] always returns a result dict.  It is the
    successful one exactly when yt-dlp delivers an info dict whose
    formats can be listed, and then the listing starts with the audio
    option and has at least one video option; one format that passes
    the video filter without a ['format_id'] turns the whole analysis
    into the failure ['Error inesperado: 'format_id'']; a
    [DownloadError] whose text mentions ['Private video'] or ['not
    available'] is reported as private content even when it also
    mentions ['Unsupported URL']; and any other exception is reported
    with ['Error inesperado: '] and its text. *)
Theorem analyze_url_outcomes lookup url :
  (∀ info formats,
     analyze_url lookup url = AnalysisOk info formats
     <-> ∃ meta, lookup url = Meta meta ∧ info = summary_of meta
           ∧ get_available_formats (i_formats meta) = inr formats)
  ∧ (∀ info formats,
       analyze_url lookup url = AnalysisOk info formats ->
       head formats = Some audio_option
       ∧ ∃ o rest, tail formats = o :: rest
           ∧ Forall (fun o => fo_type o = lit "video") (o :: rest))
  ∧ (∀ meta f,
       lookup url = Meta meta ->
       f ∈ default [] (i_formats meta) -> eligible f = true ->
       f_format_id f = None ->
       analyze_url lookup url
       = AnalysisError (lit "Error inesperado: 'format_id'"))
  ∧ (∀ msg,
       lookup url = MetaRaises (Exn DownloadError msg) ->
       contains (lit "Private video") msg = true
       ∨ contains (lit "not available") msg = true ->
       analyze_url lookup url = AnalysisError private_msg)
  ∧ (∀ e,
       lookup url = MetaRaises e -> exn_class_of e ≠ DownloadError ->
       analyze_url lookup url
       = AnalysisError (lit "Error inesperado: " ++ exn_str e)).
Proof.
  assert (Hok : ∀ info formats,
     analyze_url lookup url = AnalysisOk info formats
     <-> ∃ meta, lookup url = Meta meta ∧ info = summary_of meta
           ∧ get_available_formats (i_formats meta) = inr formats).
  { intros info formats. unfold analyze_url.
    destruct (lookup url) as [|meta|e].
    - split; [done|]. by intros (meta & ? & _).
    - destruct (get_available_formats (i_formats meta)) as [e|formats'] eqn:Hget.
      + split; [done|]. intros (meta' & [= <-] & _ & ?). congruence.
      + split.
        * intros [= <- <-]. eauto.
        * intros (meta' & [= <-] & -> & ?). congruence.
    - split; [done|]. by intros (meta & ? & _). }
  split_and!.
  - exact Hok.
  - intros info formats Hres.
    apply Hok in Hres as (meta & _ & _ & Hget).
    destruct (get_available_formats_inv _ _ Hget) as (vfs & _ & ->).
    simpl. split; [done|]. case_decide as Hq.
    + eexists _, _. split; [done|]. by repeat constructor.
    + destruct (quality_options ∅ (sort_by_height vfs)) as [|o rest] eqn:Hqo;
        [done|].
      exists o, rest. split; [done|].
      apply list.Forall_forall. intros o' Ho'. rewrite <- Hqo in Ho'.
      by destruct (quality_options_types _ _ _ Ho') as (h & -> & _).
  - intros meta f Hmeta Hin Hel Hid. unfold analyze_url.
    by rewrite Hmeta, (get_available_formats_raises _ f).
  - intros msg Hmeta Hpriv. unfold analyze_url, analysis_error.
    rewrite Hmeta. simpl. by destruct Hpriv as [-> | ->]; rewrite ?orb_true_r.
  - intros e Hmeta Hclass. unfold analyze_url, analysis_error.
    rewrite Hmeta. by rewrite decide_False.
Qed.

(** X15.  The route [analyze] answers 200, 400 or 500: 500 exactly when
    reading the request fails; 200 exactly when the stripped URL starts
    with ['http://'] or ['https://'] and its analysis succeeds, the
    body then being that analysis.  yt-dlp is asked about nothing but a
    stripped URL with one of the two prefixes, so the answer is the
    same for any two engines that agree on those. *)
Theorem analyze_route_answers lookup (request_url : exn + option pystr) :
  let reply := analyze lookup request_url in
  reply.2 ∈ [200; 400; 500]%Z
  ∧ (reply.2 = 500%Z <-> ∃ e, request_url = inl e)
  ∧ (reply.2 = 200%Z
     <-> ∃ entry info formats,
           request_url = inr entry
           ∧ is_http (strip (default [] entry)) = true
           ∧ analyze_url lookup (strip (default [] entry))
             = AnalysisOk info formats
           ∧ reply.1 = JsonAnalysis (AnalysisOk info formats))
  ∧ (∀ lookup',
       (∀ u, is_http u = true -> strip u = u -> lookup' u = lookup u) ->
       analyze lookup' request_url = reply).
Proof.
  intros reply. subst reply. unfold analyze.
  destruct request_url as [e|entry]; cbn [fst snd].
  { split_and!; [set_solver|naive_solver|naive_solver|done]. }
  set (url := strip (default [] entry)).
  destruct (decide (url = [])) as [Hnil|Hnil].
  { split_and!; [set_solver|naive_solver| |done].
    split; [done|]. intros (entry' & info & formats & [= <-] & Hhttp & _).
    fold url in Hhttp. by rewrite Hnil in Hhttp. }
  destruct (is_http url) eqn:Hhttp; cbn [negb].
  2:{ split_and!; [set_solver|naive_solver| |done].
      split; [done|]. intros (entry' & info & formats & [= <-] & Hhttp' & _).
      fold url in Hhttp'. congruence. }
  split_and!.
  - destruct (analyze_url lookup url); set_solver.
  - destruct (analyze_url lookup url); naive_solver.
  - destruct (analyze_url lookup url) as [info formats|err] eqn:Hres;
      cbn [fst snd].
    + split; [|done]. intros _. exists entry, info, formats.
      fold url. by rewrite Hres.
    + split; [done|]. intros (entry' & info & formats & [= <-] & _ & Hres' & _).
      fold url in Hres'. congruence.
  - intros lookup' Hagree.
    rewrite (analyze_url_ext lookup lookup' url); [done|].
    apply Hagree; [done|apply strip_idem].
Qed.

Lemma download_streamed_inv lookup world request mimetype cd cc body :
  download unicode_alnum lookup world request = Streamed mimetype cd cc body ->
  ∃ url_entry format_entry info formats,
    request = inr (url_entry, format_entry)
    ∧ strip (default [] url_entry) ≠ []
    ∧ analyze_url lookup (strip (default [] url_entry)) = AnalysisOk info formats
    ∧ mimetype = download_mimetype (default (lit "video_best") format_entry)
    ∧ cd = lit "attachment; filename=" ++ [34%N]
           ++ download_filename unicode_alnum (s_title info)
                (default (lit "video_best") format_entry) ++ [34%N]
    ∧ cc = lit "no-cache"
    ∧ body = (fun patience disk =>
                route_generate
                  (stream_download (world (strip (default [] url_entry)))
                     (default (lit "video_best") format_entry) patience disk)).
Proof.
  unfold download. destruct request as [e|[url_entry format_entry]]; [done|].
  case_decide as Hnil; [done|].
  destruct (analyze_url lookup _) as [info formats|err] eqn:Hres; [|done].
  intros [= <- <- <- <-]. by exists url_entry, format_entry, info, formats.
Qed.

Lemma kept_not_special (c : N) :
  kept unicode_alnum c = true -> c ∉ [34; 47; 92; 10; 13]%N.
Proof.
  intros Hk Hin.
  repeat (apply elem_of_cons in Hin as [->|Hin]; [discriminate Hk|]).
  by apply elem_of_nil in Hin.
Qed.

(** X16.  The [Content-Disposition] value the route [download] sets on
    a streamed response is [attachment; filename=] followed by a name
    between double quotes, where the name holds no double quote, slash,
    backslash, line feed or carriage return, does not start with
    whitespace, has between 4 and 104 characters, and ends in ['.mp3']
    under the type ['audio/mpeg'] or in ['.mp4'] under ['video/mp4'];
    [Cache-Control] is ['no-cache']. *)
Theorem download_header_well_formed lookup world request mimetype cd cc
    (body : option nat -> fs -> stream_trace) :
  download unicode_alnum lookup world request = Streamed mimetype cd cc body ->
  ∃ name,
    cd = lit "attachment; filename=" ++ [34%N] ++ name ++ [34%N]
    ∧ cc = lit "no-cache"
    ∧ 4 <= length name <= 104
    ∧ Forall (fun c => c ∉ [34; 47; 92; 10; 13]%N) name
    ∧ (∀ c, head name = Some c -> isspace c = false)
    ∧ (mimetype = lit "audio/mpeg" ∧ lit ".mp3" `suffix_of` name
       ∨ mimetype = lit "video/mp4" ∧ lit ".mp4" `suffix_of` name).
Proof.
  intros Hreply.
  apply download_streamed_inv in Hreply
    as (url_entry & format_entry & info & formats & _ & _ & _ & -> & -> & -> & _).
  set (format_choice := default (lit "video_best") format_entry).
  set (title := s_title info).
  exists (download_filename unicode_alnum title format_choice).
  assert (Hext : extension format_choice = lit ".mp3"
                 ∨ extension format_choice = lit ".mp4").
  { unfold extension. destruct (startswith _ _); auto. }
  unfold download_filename. split_and!; try done.
  - rewrite length_app.
    destruct Hext as [-> | ->]; change (length (lit _)) with 4; lia.
  - rewrite length_app. unfold safe_title. rewrite length_take.
    destruct Hext as [-> | ->]; change (length (lit _)) with 4; lia.
  - apply Forall_app. split.
    + apply list.Forall_forall. intros c Hc.
      eapply elem_of_sublist in Hc; [|apply safe_title_sublist].
      apply list_elem_of_filter in Hc as [Hc _]. by apply kept_not_special.
    + destruct Hext as [-> | ->]; compute_done.
  - intros c. unfold safe_title, title.
    destruct (strip_cases (filter (fun c => kept unicode_alnum c = true)
                             (s_title info))) as [->|(a & tl & -> & Ha)].
    + simpl. destruct Hext as [-> | ->]; by intros [= <-].
    + simpl. by intros [= <-].
  - unfold download_mimetype, extension.
    destruct (startswith _ _); [left|right]; (split; [done|]);
      by eexists.
Qed.

Lemma stream_download_final_disk env format_choice patience disk :
  rmtree_fault env = None ->
  path_exists (tmp_name env)
    (final_disk (stream_download env format_choice patience disk)) = false.
Proof.
  intros Hrm. unfold stream_download.
  destruct (stream_body _ _ _ _) as [disk2 [yielded e]]. rewrite Hrm. simpl.
  apply path_exists_rmtree. by left.
Qed.

(** X17.  The body of a streamed response never fails: it sends the
    chunks [stream_download] yields for the stripped URL, and when that
    generator raises, the exception is printed as ['Streaming error:
    ...'] and the body just ends, as it does after a complete file; it
    ends as closed only when the generator was closed by the client.
    The temporary directory is removed all the same whenever the
    removal succeeds. *)
Theorem download_body_ends_normally lookup world request mimetype cd cc
    (body : option nat -> fs -> stream_trace) :
  download unicode_alnum lookup world request = Streamed mimetype cd cc body ->
  ∃ url format_choice,
    url ≠ [] ∧ strip url = url
    ∧ ∀ patience disk,
        let run := stream_download (world url) format_choice patience disk in
        let sent := body patience disk in
        chunks sent = chunks run
        ∧ final_disk sent = final_disk run
        ∧ (∀ e, ending sent ≠ Faulted e)
        ∧ (ending sent = Closed <-> ending run = Closed)
        ∧ (∀ e, ending run = Faulted e ->
             ending sent = Exhausted
             ∧ last (printed sent)
               = Some (lit "Streaming error: " ++ exn_str e))
        ∧ (rmtree_fault (world url) = None ->
             path_exists (tmp_name (world url)) (final_disk sent) = false).
Proof.
  intros Hreply.
  apply download_streamed_inv in Hreply
    as (url_entry & format_entry & info & formats & _ & Hnil & _ & _ & _ & _ & ->).
  exists (strip (default [] url_entry)), (default (lit "video_best") format_entry).
  split; [done|]. split; [apply strip_idem|].
  intros patience disk run sent. subst sent. fold run.
  assert (Hdisk : final_disk (route_generate run) = final_disk run).
  { unfold route_generate. by destruct (ending run). }
  split_and!.
  - unfold route_generate. by destruct (ending run).
  - exact Hdisk.
  - intros e. unfold route_generate. by destruct (ending run) eqn:Hend; simpl; rewrite ?Hend.
  - unfold route_generate. destruct (ending run) eqn:Hend; simpl; rewrite ?Hend; done.
  - intros e Hend. unfold route_generate. rewrite Hend. simpl.
    split; [done|]. apply last_snoc.
  - intros Hrm. rewrite Hdisk. by apply stream_download_final_disk.
Qed.
End RouteFacts.

Section HookFailure.
Context `{PyNum}.

Implicit Types (s : store) (task_id url format_choice : pystr)
  (d : progress_dict).

(** What the hook does before it calls the callback does not depend on
    the callback: it raises, returns, or hands over one event. *)
Lemma hook_uniform d :
  (∃ m, ∀ St (cb : progress_info -> M St unit) (st : St),
          hook (Some cb) d st = (st, inl (Exn TypeError m)))
  ∨ (∀ St (cb : progress_info -> M St unit) (st : St),
       hook (Some cb) d st = (st, inr tt))
  ∨ (∃ ev, ∀ St (cb : progress_info -> M St unit) (st : St),
             hook (Some cb) d st = cb ev st).
Proof.
  unfold hook. repeat case_decide; eauto.
  unfold mbind, M_bind, bind, lift.
  destruct (hook_total d) as [|t]; simpl; [left; eauto|].
  destruct (num_gt0 t) eqn:Hgt; [|by right; left].
  destruct (hook_downloaded d) as [|dl]; simpl; [left; eauto|].
  rewrite (num_gt0_bool _ Hgt). simpl. right; right; eauto.
Qed.

(** With the record of the task in the table the callback returns
    normally and the record stays. *)
Lemma progress_callback_present task_id info s :
  is_Some (s !! task_id) ->
  ∃ s', progress_callback task_id info s = (s', inr tt)
        ∧ is_Some (s' !! task_id).
Proof.
  intros [r Hr]. unfold progress_callback. repeat case_decide.
  - eexists. split; [done|]. rewrite lookup_insert_eq. eauto.
  - rewrite Hr. eexists. split; [done|]. rewrite lookup_insert_eq. eauto.
  - eexists. split; [done|]. eauto.
Qed.

Lemma extract_events_hook_error task_id before d after e s :
  is_Some (s !! task_id) ->
  Forall (fun d' => ∀ e', hook_result d' ≠ inl e') before ->
  hook_result d = inl e ->
  ∃ s', extract_events [hook (Some (progress_callback task_id))]
          (before ++ d :: after) s = (s', inl e)
        ∧ exn_class_of e = TypeError.
Proof.
  intros Hs Hbefore Hd. revert s Hs.
  induction Hbefore as [|d' before Hd' _ IH]; intros s Hs.
  - cbn [app extract_events call_hooks]. unfold mbind, M_bind, bind.
    unfold hook_result in Hd.
    destruct (hook_uniform d) as [[m Hm]|[Hret|[ev Hev]]].
    + rewrite Hm in *. simpl in Hd. injection Hd as <-. eauto.
    + by rewrite Hret in Hd.
    + by rewrite Hev in Hd.
  - cbn [app extract_events call_hooks]. unfold mbind, M_bind, bind.
    unfold hook_result in Hd'.
    destruct (hook_uniform d') as [[m Hm]|[Hret|[ev Hev]]].
    + exfalso. rewrite Hm in Hd'. by eapply Hd'.
    + rewrite Hret. simpl. by apply IH.
    + rewrite Hev.
      destruct (progress_callback_present task_id ev s Hs) as (s1 & -> & Hs1).
      simpl. by apply IH.
Qed.

(** X18.  An exception of the progress hook fails the whole download.
    When the hook raises on an event of yt-dlp's run (a [None] total or
    a [None] byte count, see X6), [download_media] answers ['Error
    inesperado: '] followed by the text of that [TypeError], and the
    worker leaves an ['error'] record with that message, whatever the
    run would have delivered. *)
Theorem hook_error_fails_download engine task_id url format_choice s
    (before after : list progress_dict) d e :
  run_events (engine url format_choice) = before ++ d :: after ->
  Forall (fun d' => ∀ e', hook_result d' ≠ inl e') before ->
  hook_result d = inl e ->
  (download_worker engine task_id url format_choice s).1 !! task_id
  = Some (error_record (lit "Error inesperado: " ++ exn_str e)).
Proof.
  intros Hevents Hbefore Hd. unfold download_worker.
  rewrite download_worker_with_eq.
  destruct (extract_events_hook_error task_id before d after e
              (<[task_id := connecting_record]> s)) as (s1 & Hrun & Hclass);
    [by rewrite lookup_insert_eq|done|done|].
  unfold download_media, extract_info, try_except, mbind, M_bind, bind.
  rewrite Hevents, Hrun. rewrite decide_False by (rewrite Hclass; discriminate).
  simpl. apply lookup_insert_eq.
Qed.
End HookFailure.

(* ===================================================================== *)
(** * The further properties on the concrete runs *)
(* ===================================================================== *)

Example demo_formats_listed :
  get_available_formats (Some demo_formats) = inr demo_options
  ∧ fo_id <$> demo_options
    = [lit "audio_mp3"; lit "video_2160p"; lit "video_1080p"; lit "video_720p"]
  ∧ fo_label <$> demo_options
    = [lit "Audio MP3 (mejor calidad)"; lit "Video 2160p (4K) MP4";
       lit "Video 1080p (Full HD) MP4"; lit "Video 720p (HD) MP4"].
Proof. repeat split. Qed.

(** X1 on the demo listing. *)
Lemma formats_never_without_video_holds :
  head demo_options = Some audio_option
  ∧ 2 <= length demo_options
  ∧ Forall (fun o => fo_type o = lit "video") (tail demo_options)
  ∧ (demo_options = [audio_option; best_option]
     ↔ Forall (fun f => eligible f = false) (default [] (Some demo_formats)))
  ∧ (best_option ∈ demo_options -> demo_options = [audio_option; best_option]).
Proof.
  apply (formats_never_without_video (Some demo_formats) demo_options).
  reflexivity.
Defined.

(** X2 on the demo listing: 2160, 1080, 720. *)
Lemma formats_strictly_decreasing_holds :
  StronglySorted (fun a b => (b < a)%Z) (offered_heights demo_options).
Proof.
  apply (formats_strictly_decreasing (Some demo_formats) demo_options).
  reflexivity.
Defined.

(** X3 on the demo listing, for the height 720. *)
Lemma formats_sound_and_complete_holds :
  720%Z ∈ offered_heights demo_options
  ↔ ∃ f, f ∈ default [] (Some demo_formats)
         ∧ f_vcodec f ≠ Some (lit "none")
         ∧ f_height f = Some 720%Z ∧ (144 <= 720)%Z.
Proof.
  apply (formats_sound_and_complete (Some demo_formats) demo_options 720).
  reflexivity.
Defined.

(** X5 on the 1080p option of the demo listing. *)
Lemma offered_formats_are_selectable_holds :
  stream_download_opts (lit "video_1080p") = download_media_opts (lit "video_1080p")
  ∧ download_media_opts (lit "video_1080p")
    = {| opt_format := Some (height_selector 1080); opt_postprocessors := [];
         opt_merge_output_format := Some (lit "mp4") |}.
Proof.
  apply (@offered_formats_are_selectable PlainPyInt (Some demo_formats)
           demo_options (video_option 1080)).
  - reflexivity.
  - unfold demo_options. rewrite !elem_of_cons. right; right; left. reflexivity.
Defined.

(** X8: the worker of ["task-1"] leaves the record of ["task-2"] alone. *)
Lemma download_worker_touches_own_record_holds :
  let s : store := {[lit "task-2" := connecting_record]} in
  (download_worker demo_engine demo_task (lit "https://example.com/v")
     (lit "audio_mp3") s).1 !! lit "task-2"
  = s !! lit "task-2".
Proof.
  apply (download_worker_touches_own_record demo_engine demo_task
           (lit "https://example.com/v") (lit "audio_mp3")
           {[lit "task-2" := connecting_record]} (lit "task-2")).
  discriminate.
Defined.

(** X10 on the system in which the worker of ["task-1"] is fetching. *)
Lemma cleanup_does_not_stop_worker_holds :
  ∃ sys1, sys_step (Cleanup demo_task) fetching_system = Some sys1
    ∧ table sys1 !! demo_task = None
    ∧ ∀ outcome, ∃ sys2 r,
        sys_step (Finish demo_task outcome) sys1 = Some sys2
        ∧ table sys2 !! demo_task = Some r ∧ terminal r = true.
Proof.
  destruct (cleanup_does_not_stop_worker fetching_system demo_task)
    as (sys1 & Hstep & Hgone & _ & _ & _ & _ & Hfinish); [compute_done|].
  exists sys1. split_and!; [done|done|].
  intros outcome. destruct (Hfinish outcome) as (sys2 & r & ? & ? & ? & _).
  by exists sys2, r.
Defined.

(** X11 on the scenario: the read of ['completed'] comes with a worker
    that is done. *)
Lemma read_reflects_worker_holds :
  let r := current_progress demo_task (table demo_system) in
  (status r = lit "downloading" ∨ status r = lit "processing" ->
     workers demo_system !! demo_task = Some Fetching)
  ∧ (status r = lit "completed" ∨ status r = lit "error" ->
     workers demo_system !! demo_task = Some Done)
  ∧ (workers demo_system !! demo_task = None -> r = not_found_record)
  ∧ status r ∈ [lit "downloading"; lit "processing"; lit "completed";
                lit "error"; lit "not_found"]
  ∧ (workers demo_system !! demo_task = Some Done ->
     stops_stream r = true
     ∧ ∀ before after : list store,
         (get_progress demo_task (before ++ table demo_system :: after)).2 = true).
Proof.
  apply (read_reflects_worker demo_labels demo_system demo_task).
  compute_done.
Defined.

(** A fetch that leaves nothing behind: an empty response, no error. *)
Example ends_silently :
  let run := stream_download empty_env (lit "video_best") None [] in
  chunks run = [] ∧ ending run = Exhausted ∧ printed run = []
  ∧ final_disk run = [].
Proof. vm_compute. repeat split. Qed.

(** X16 on the demo request: the header names ["AB TestFile.mp3"]. *)
Lemma download_header_well_formed_holds :
  ∃ name,
    lit "attachment; filename=" ++ [34%N] ++ lit "AB TestFile.mp3" ++ [34%N]
    = lit "attachment; filename=" ++ [34%N] ++ name ++ [34%N]
    ∧ lit "no-cache" = lit "no-cache"
    ∧ 4 <= length name <= 104
    ∧ Forall (fun c => c ∉ [34; 47; 92; 10; 13]%N) name
    ∧ (∀ c, head name = Some c -> isspace c = false)
    ∧ (lit "audio/mpeg" = lit "audio/mpeg" ∧ lit ".mp3" `suffix_of` name
       ∨ lit "audio/mpeg" = lit "video/mp4" ∧ lit ".mp4" `suffix_of` name).
Proof.
  apply (download_header_well_formed (fun _ => false) demo_lookup
           (fun _ => demo_env false) demo_request
           (lit "audio/mpeg")
           (lit "attachment; filename=" ++ [34%N] ++ lit "AB TestFile.mp3" ++ [34%N])
           (lit "no-cache") demo_body).
  reflexivity.
Defined.

(** X17 on the demo request: the body is the fetched file, and the
    temporary directory is gone afterwards. *)
Lemma download_body_ends_normally_holds :
  ∃ url format_choice,
    url ≠ [] ∧ strip url = url
    ∧ ∀ patience disk,
        let run := stream_download (demo_env false) format_choice patience disk in
        let sent := demo_body patience disk in
        chunks sent = chunks run
        ∧ final_disk sent = final_disk run
        ∧ (∀ e, ending sent ≠ Faulted e)
        ∧ (ending sent = Closed <-> ending run = Closed)
        ∧ (∀ e, ending run = Faulted e ->
             ending sent = Exhausted
             ∧ last (printed sent)
               = Some (lit "Streaming error: " ++ exn_str e))
        ∧ (rmtree_fault (demo_env false) = None ->
             path_exists (tmp_name (demo_env false)) (final_disk sent) = false).
Proof.
  apply (download_body_ends_normally (fun _ => false) demo_lookup
           (fun _ => demo_env false) demo_request
           (lit "audio/mpeg")
           (lit "attachment; filename=" ++ [34%N] ++ lit "AB TestFile.mp3" ++ [34%N])
           (lit "no-cache") demo_body).
  reflexivity.
Defined.

Example demo_download_streams :
  chunks (demo_body None []) = [demo_file]
  ∧ ending (demo_body None []) = Exhausted
  ∧ final_disk (demo_body None []) = [].
Proof. vm_compute. repeat split. Qed.

(** X18 on a run whose second event has a [None] estimate: yt-dlp would
    have delivered the file, the worker records the [TypeError]. *)
Lemma hook_error_fails_download_holds :
  (download_worker none_total_engine demo_task (lit "https://example.com/v")
     (lit "audio_mp3") ∅).1 !! demo_task
  = Some (error_record
            (lit "Error inesperado: "
             ++ lit "'>' not supported between instances of 'NoneType' and 'int'")).
Proof.
  apply (hook_error_fails_download none_total_engine demo_task
           (lit "https://example.com/v") (lit "audio_mp3") ∅
           [demo_dict (Some (@PyNumber DoubleNum (Double.of_Z 10000)))] [] none_total_dict
           (type_error "'>' not supported between instances of 'NoneType' and 'int'")).
  - reflexivity.
  - constructor; [|constructor]. intros e'.
    assert (Hok : @hook_result DoubleNum
                    (demo_dict (Some (@PyNumber DoubleNum (Double.of_Z 10000))))
                  = inr tt) by reflexivity.
    rewrite Hok. discriminate.
  - reflexivity.
Defined.
